(** * noise2noise / dataset_tool_mri.py : per-slice MRI conversion pipeline

    A shallow embedding of [dataset_tool_mri.py] (the IXI-T1 NIfTI to PNG
    converter) and the properties its specification states about it.

    Conventions of the embedding
    - a numpy 2-D array is the list of its rows; a 3-D volume carries
      its shape next to its data, because the shape is observable even
      when an axis is empty;
    - floating-point samples are modelled by exact real numbers ([R]),
      complex spectra by pairs of reals; where overflow, rounding or NaN
      decide a property, values are those of [fp] and the rounding is
      explicit;
    - Python exceptions are the left summand of [result];
    - the process-wide numpy random generator is an explicit state
      ([rng]) threaded through every function that draws from it;
    - the output directory is the list of files written so far. *)

From Stdlib Require Import String Ascii DecimalString DecimalNat.
From Stdlib Require Import List ZArith Reals Lra Lia Bool Arith.
From Stdlib Require Import Permutation.
Import ListNotations.

Set Implicit Arguments.

(** ** Exceptions *)

Inductive exn : Type :=
| AssertionError   (* a failed [assert] *)
| IndexError       (* index out of bounds for an axis *)
| ValueError       (* numpy: shape mismatch, empty reduction, empty FFT *)
| SystemExit.      (* [sys.exit(1)] *)

Definition result (A : Type) : Type := (exn + A)%type.

Definition Ok {A : Type} (a : A) : result A := inr a.
Definition Raise {A : Type} (e : exn) : result A := inl e.

Definition rbind {A B : Type} (m : result A) (k : A -> result B) : result B :=
  match m with
  | inl e => inl e
  | inr a => k a
  end.

(** ** Arrays *)

Module Arr.

(** The list [f 0, ..., f (n-1)]. *)
Definition tab {A : Type} (n : nat) (f : nat -> A) : list A :=
  map f (seq 0 n).

(** Elementwise binary operation on two arrays of one shape. *)
Definition zip_with {A B D : Type} (f : A -> B -> D)
    (a : list A) (b : list B) : list D :=
  map (fun p => f (fst p) (snd p)) (combine a b).

Section Axis.
Context {T : Type}.

(** [np.roll(a, shift)] along the one axis of [a]: the element at [i]
    moves to [(i + shift) mod n]. *)
Definition roll (a : list T) (shift : Z) : list T :=
  let n := length a in
  if (n =? 0)%nat then a
  else
    let offset := Z.to_nat (shift mod Z.of_nat n) in
    skipn (n - offset) a ++ firstn (n - offset) a.

(** The specification's wording of a shift along one axis: split at [k]
    and swap the two halves. *)
Definition swap_halves (k : nat) (a : list T) : list T :=
  skipn k a ++ firstn k a.

End Axis.

Section Poly.
Context {T : Type}.

(** [x.shape[0]] and [x.shape[1]]. *)
Definition shape0 (x : list (list T)) : nat := length x.
Definition shape1 (x : list (list T)) : nat := length (hd [] x).

(** [x[i, j]], for indices within the shape. *)
Definition get (d : T) (x : list (list T)) (i j : nat) : T :=
  nth j (nth i x []) d.

(** [x] is a proper [m] by [n] array. *)
Definition rect (m n : nat) (x : list (list T)) : Prop :=
  length x = m /\ Forall (fun r => length r = n) x.

(** [np.concatenate([a, b], axis=0)] and [axis=1]. *)
Definition concatenate0 (a b : list (list T)) : list (list T) := a ++ b.
Definition concatenate1 (a b : list (list T)) : list (list T) :=
  map (fun p => fst p ++ snd p) (combine a b).

(** [np.roll(x, (s0, s1), axis=(0, 1))]. *)
Definition roll2 (x : list (list T)) (s0 s1 : Z) : list (list T) :=
  map (fun r => roll r s1) (roll x s0).

(** [np.fft.fftshift(x)] and [np.fft.ifftshift(x)] with [axes=None]:
    every axis is rolled by [dim // 2], respectively [-(dim // 2)]. *)
Definition np_fftshift (x : list (list T)) : list (list T) :=
  roll2 x (Z.of_nat (shape0 x / 2)) (Z.of_nat (shape1 x / 2)).

Definition np_ifftshift (x : list (list T)) : list (list T) :=
  roll2 x (- Z.of_nat (shape0 x / 2)) (- Z.of_nat (shape1 x / 2)).

(** [fftshift2d(x, ifft)], lines 28-34. *)
Definition fftshift2d (x : list (list T)) (ifft : bool) : result (list (list T)) :=
  if Nat.odd (shape0 x) && Nat.odd (shape1 x) then
    let s0 := (shape0 x / 2 + (if ifft then 0 else 1))%nat in
    let s1 := (shape1 x / 2 + (if ifft then 0 else 1))%nat in
    let x := concatenate0 (skipn s0 x) (firstn s0 x) in
    let x := concatenate1 (map (skipn s1) x) (map (firstn s1) x) in
    Ok x
  else Raise AssertionError.

(** Swapping the halves of both axes. *)
Definition swap_halves2 (k0 k1 : nat) (x : list (list T)) : list (list T) :=
  map (swap_halves k1) (swap_halves k0 x).

End Poly.

End Arr.

Import Arr.


(** ** Complex numbers over the reals *)

Module Cplx.

Open Scope R_scope.

Definition C : Type := (R * R)%type.

Definition C0 : C := (0, 0).
Definition C1 : C := (1, 0).
Definition RtoC (r : R) : C := (r, 0).
Definition Cadd (z w : C) : C := (fst z + fst w, snd z + snd w).
Definition Cmul (z w : C) : C :=
  (fst z * fst w - snd z * snd w, fst z * snd w + snd z * fst w).
Definition Cscal (r : R) (z : C) : C := (r * fst z, r * snd z).

(** [np.abs] of a complex number. *)
Definition Cabs (z : C) : R := sqrt (fst z * fst z + snd z * snd z).

(** [exp(i t)]. *)
Definition cis (t : R) : C := (cos t, sin t).

(** [f 0 + ... + f (n-1)]. *)
Fixpoint Csum (n : nat) (f : nat -> C) : C :=
  match n with
  | O => C0
  | S k => Cadd (Csum k f) (f k)
  end.

End Cplx.

Import Cplx.

(** ** numpy.fft

    The transforms as numpy documents them:
    [fft(a)[k]  = sum_j a[j] * exp(-2 pi i j k / n)],
    [ifft(a)[k] = (1/n) * sum_j a[j] * exp(+2 pi i j k / n)],
    and [fft2]/[ifft2] apply the one-dimensional transform along the last
    axis and then along the first.  An axis of length zero is rejected
    with a [ValueError]. *)

Module Fft.

Open Scope R_scope.

Definition twiddle (sgn : R) (n j k : nat) : C :=
  cis (sgn * (2 * PI * INR j * INR k / INR n)).

Definition dft (sgn : R) (a : list C) : list C :=
  let n := length a in
  tab n (fun k => Csum n (fun j => Cmul (nth j a C0) (twiddle sgn n j k))).

Definition fft (a : list C) : list C := dft (-1) a.

Definition ifft (a : list C) : list C :=
  map (Cscal (/ INR (length a))) (dft 1 a).

(** The columns of [x], as rows. *)
Definition transpose (x : list (list C)) : list (list C) :=
  tab (shape1 x) (fun j => map (fun r => nth j r C0) x).

Definition along_axis1 (f : list C -> list C) (x : list (list C)) :=
  map f x.

Definition along_axis0 (f : list C -> list C) (x : list (list C)) :=
  transpose (map f (transpose x)).

Definition empty_axis (x : list (list C)) : bool :=
  ((shape0 x =? 0) || (shape1 x =? 0))%nat.

Definition fft2 (x : list (list C)) : result (list (list C)) :=
  if empty_axis x then Raise ValueError
  else Ok (along_axis0 fft (along_axis1 fft x)).

Definition ifft2 (x : list (list C)) : result (list (list C)) :=
  if empty_axis x then Raise ValueError
  else Ok (along_axis0 ifft (along_axis1 ifft x)).

End Fft.

Import Fft.

(** ** The world: random generator and output directory *)

Open Scope R_scope.

(** The generator behind [np.random.rand]: an infinite sequence of
    draws and the number of draws consumed so far. *)
Record rng : Type := mkRng { draws : nat -> R; pos : nat }.


Record world : Type := mkWorld {
  w_rng : rng;
  w_written : list (string * list (list R))   (* files saved, oldest first *)
}.

(** State and exception monad. *)
Definition M (A : Type) : Type := world -> result A * world.

Definition ret {A : Type} (a : A) : M A := fun w => (Ok a, w).

Definition raise {A : Type} (e : exn) : M A := fun w => (Raise e, w).

Definition bind {A B : Type} (m : M A) (k : A -> M B) : M B :=
  fun w =>
    match m w with
    | (inl e, w') => (inl e, w')
    | (inr a, w') => k a w'
    end.

Definition lift {A : Type} (r : result A) : M A := fun w => (r, w).

Declare Scope m_scope.
Delimit Scope m_scope with m.
Notation "x <- m ;; k" := (bind m (fun x => k))
  (at level 61, m at next level, right associativity) : m_scope.
Notation "m ;;; k" := (bind m (fun _ => k))
  (at level 61, right associativity) : m_scope.

(** [for x in xs: body(x)]. *)
Fixpoint for_each {A : Type} (xs : list A) (body : A -> M unit) : M unit :=
  match xs with
  | [] => ret tt
  | x :: xs' => bind (body x) (fun _ => for_each xs' body)
  end.

(** [np.random.rand(m, n)]: [m * n] fresh draws, filled row by row. *)
Definition random_rand (m n : nat) : M (list (list R)) :=
  fun w =>
    let g := w_rng w in
    (Ok (tab m (fun i => tab n (fun j => draws g (pos g + i * n + j)%nat))),
     mkWorld (mkRng (draws g) (pos g + m * n)) (w_written w)).

(** [PIL.Image.fromarray(output).convert('L').save(outname)]; the 8-bit
    encoding belongs to the image library, the file holds [output]. *)
Definition save (outname : string) (output : list (list R)) : M unit :=
  fun w => (Ok tt, mkWorld (w_rng w) (w_written w ++ [(outname, output)])).

(** ** Scalars *)

Definition Rltb (a b : R) : bool := if Rlt_dec a b then true else false.

(** [np.max] of the flattened array. *)
Definition amax (l : list R) : result R :=
  match l with
  | [] => Raise ValueError
  | a :: l' => Ok (fold_left Rmax l' a)
  end.

(** ** dataset_tool_mri.py *)

Definition OUT_RESOLUTION : nat := 256.

(** Select z-slices from [25,124] *)
Definition slice_min : nat := 25.
Definition slice_max : nat := 125.

(** [fft_slice * mask]: a retained cell is multiplied by one, a dropped
    cell by zero. *)
Definition mul_mask (x : list (list C)) (mask : list (list bool)) :=
  zip_with (zip_with (fun z (b : bool) => Cmul z (if b then C1 else C0))) x mask.

(** [undersample_kspace(slice, mask_fraction)], lines 36-43. *)
Definition undersample_kspace (slice : list (list R)) (mask_fraction : R)
  : M (list (list R)) :=
  (fft_slice <- lift (fft2 (map (map RtoC) slice)) ;;
   let fft_slice := np_fftshift fft_slice in
   r <- random_rand (shape0 fft_slice) (shape1 fft_slice) ;;
   let mask := map (map (fun u => Rltb u mask_fraction)) r in
   let undersampled_fft := mul_mask fft_slice mask in
   let undersampled_fft := np_ifftshift undersampled_fft in
   y <- lift (ifft2 undersampled_fft) ;;
   ret (map (map Cabs) y))%m.

(** A loaded NIfTI image: [nii_img.shape] and [nii_img.get_fdata()],
    indexed [x][y][z]. *)
Record nii : Type := mkNii {
  nii_shape : nat * nat * nat;
  nii_fdata : list (list (list R))
}.

Definition dim0 (v : nii) : nat := fst (fst (nii_shape v)).
Definition dim1 (v : nii) : nat := snd (fst (nii_shape v)).
Definition dim2 (v : nii) : nat := snd (nii_shape v).

(** A volume of shape [n0] by [n1] by [n2]. *)
Definition vol_rect (n0 n1 n2 : nat) (img : list (list (list R))) : Prop :=
  length img = n0 /\
  Forall (fun p => length p = n1 /\ Forall (fun c => length c = n2) p) img.

(** The data agree with the shape. *)
Definition nii_wf (v : nii) : Prop :=
  vol_rect (dim0 v) (dim1 v) (dim2 v) (nii_fdata v).

Definition flatten2 {A : Type} (x : list (list A)) : list A := concat x.
Definition flatten3 {A : Type} (x : list (list (list A))) : list A :=
  concat (concat x).

(** [img / np.max(img)], lines 67-68, on a volume of finite samples
    that the cast to float32 leaves as they are, with exact quotients.
    [normalize_rnd] below adds the rounding of the quotients. *)
Definition normalize (img : list (list (list R)))
  : result (list (list (list R))) :=
  rbind (amax (flatten3 img)) (fun mx =>
  Ok (map (map (map (fun v => v / mx))) img)).

(** [img[:, :, s]] for [s >= 0], line 72. *)
Definition take_slice (depth : nat) (img : list (list (list R))) (s : nat)
  : result (list (list R)) :=
  if (s <? depth)%nat then Ok (map (map (fun c => nth s c 0)) img)
  else Raise IndexError.

(** [(OUT_RESOLUTION - dim) // 2], one component of [hborder], line 64. *)
Definition hborder (dim : nat) : Z :=
  ((Z.of_nat OUT_RESOLUTION - Z.of_nat dim) / 2)%Z.

(** [np.zeros([rows, cols])]. *)
Definition zeros (rows cols : nat) : list (list R) :=
  repeat (repeat 0 cols) rows.

(** Bound of a Python slice [a:b] on an axis of length [len]: a negative
    bound counts from the end, and the result is clipped to the axis. *)
Definition slice_bound (len : nat) (i : Z) : nat :=
  if (i <? 0)%Z then Z.to_nat (Z.max (i + Z.of_nat len) 0)
  else Z.to_nat (Z.min i (Z.of_nat len)).

(** A value axis of length [n] fits a target axis of length [p] when the
    lengths agree or the value axis has length one (broadcasting). *)
Definition fits (p n : nat) : bool := ((n =? p) || (n =? 1))%nat.

(** [out[r0:r1, c0:c1] = v], line 78. *)
Definition set_block (out : list (list R)) (r0 r1 c0 c1 : Z)
    (v : list (list R)) : result (list (list R)) :=
  let a0 := slice_bound (shape0 out) r0 in
  let b0 := slice_bound (shape0 out) r1 in
  let a1 := slice_bound (shape1 out) c0 in
  let b1 := slice_bound (shape1 out) c1 in
  if fits (b0 - a0) (shape0 v) && fits (b1 - a1) (shape1 v) then
    Ok (tab (shape0 out) (fun i =>
        tab (shape1 out) (fun j =>
          if ((a0 <=? i) && (i <? b0) && (a1 <=? j) && (j <? b1))%nat
          then get 0 v (if (shape0 v =? 1)%nat then 0 else i - a0)
                       (if (shape1 v =? 1)%nat then 0 else j - a1)
          else get 0 out i j)))
  else Raise ValueError.

(** Lines 77-78: the slice centred in a blank canvas. *)
Definition compose (shape : nat * nat) (slice : list (list R))
  : result (list (list R)) :=
  let output := zeros OUT_RESOLUTION OUT_RESOLUTION in
  let h0 := hborder (fst shape) in
  let h1 := hborder (snd shape) in
  set_block output h0 (h0 + Z.of_nat (fst shape))
                   h1 (h1 + Z.of_nat (snd shape)) slice.

(** Lines 79-81. *)
Definition clamp_scale (output : list (list R)) : list (list R) :=
  let output := map (map (fun v => Rmin v 1)) output in
  let output := map (map (fun v => Rmax v 0)) output in
  map (map (fun v => v * 255)) output.

(** [np.clip(v, lo, hi)], which numpy defines as
    [minimum(hi, maximum(v, lo))]. *)
Definition clip (v lo hi : R) : R := Rmin hi (Rmax v lo).

(** ["%03d" % s]. *)
Definition fmt_03d (s : nat) : string :=
  let d := NilEmpty.string_of_uint (Nat.to_uint s) in
  String.concat "" (repeat "0"%string (3 - String.length d)) ++ d.

(** ["%s_%03d.png" % (name, s)], line 84. *)
Definition outname (name : string) (s : nat) : string :=
  (name ++ "_" ++ fmt_03d s ++ ".png")%string.

(** The body of the loop over depth indices, lines 72-85. *)
Definition genpng_slice (undersample : bool) (name : string)
    (shape : nat * nat * nat) (img : list (list (list R))) (s : nat)
  : M unit :=
  (slice <- lift (take_slice (snd shape) img s) ;;
   slice <- (if undersample then undersample_kspace slice (1 / 2)
             else ret slice) ;;
   output <- lift (compose (fst shape) slice) ;;
   let output := clamp_scale output in
   mx <- lift (amax (flatten2 output)) ;;
   if Rltb 1 mx then save (outname name s) output else ret tt)%m.

(** The body of the loop over input files, lines 60-85. *)
Definition genpng_volume (undersample : bool) (name : string) (v : nii)
  : M unit :=
  (img <- lift (normalize (nii_fdata v)) ;;
   for_each (seq slice_min (slice_max - slice_min))
            (genpng_slice undersample name (nii_shape v) img))%m.

(** Command-line arguments of the [genpng] sub-command. *)
Record args : Type := mkArgs {
  outdir : option string;
  ixi_dir : option string;
  undersample : bool
}.

(** [genpng(args)], lines 45-85; [nii_files] are the volumes found in
    the input directory, each with its file stem. *)
Definition genpng (a : args) (nii_files : list (string * nii)) : M unit :=
  match outdir a with
  | None => raise SystemExit
  | Some _ =>
    match ixi_dir a with
    | None => raise SystemExit
    | Some _ =>
      for_each nii_files
               (fun f => genpng_volume (undersample a) (fst f) (snd f))
    end
  end.

(** ** Auxiliary definitions *)

(** The angle between the [j]-th and the [l]-th of the [n] roots of
    unity. *)
Definition gap (n j l : nat) : R := 2 * PI * (INR l - INR j) / INR n.

(** A 3 by 3 array of distinct entries. *)
Definition sample33 : list (list nat) :=
  [[1; 2; 3]; [4; 5; 6]; [7; 8; 9]]%nat.


(** A linear transform of one axis, given by its kernel. *)
Definition ktf (K : nat -> nat -> nat -> C) (a : list C) : list C :=
  let n := length a in
  tab n (fun k => Csum n (fun j => Cmul (nth j a C0) (K n j k))).

Definition Kfft (n j k : nat) : C := twiddle (-1) n j k.
Definition Kifft (n j k : nat) : C := Cscal (/ INR n) (twiddle 1 n j k).

(** The world after an [m] by [n] mask has been drawn. *)
Definition advance (m n : nat) (w : world) : world :=
  mkWorld (mkRng (draws (w_rng w)) (pos (w_rng w) + m * n)) (w_written w).

(** The mask that [undersample_kspace] draws in world [w]. *)
Definition mask_of (mask_fraction : R) (w : world) (m n : nat)
  : list (list bool) :=
  tab m (fun i => tab n (fun j =>
    Rltb (draws (w_rng w) (pos (w_rng w) + i * n + j)%nat) mask_fraction)).

(** A world whose generator always draws zero and whose output
    directory is empty. *)
Definition w0 : world := mkWorld (mkRng (fun _ => 0) 0) [].

(** Slices with an even, respectively odd, number of rows and columns. *)
Definition slice22 : list (list R) := [[1; 2]; [3; 4]].

(** Lines 72-81 of the loop body: the clamped and scaled canvas of the
    slice at depth [s]. *)
Definition slice_raster (undersample : bool) (shape : nat * nat * nat)
    (img : list (list (list R))) (s : nat) : M (list (list R)) :=
  (slice <- lift (take_slice (snd shape) img s) ;;
   slice <- (if undersample then undersample_kspace slice (1 / 2)
             else ret slice) ;;
   output <- lift (compose (fst shape) slice) ;;
   ret (clamp_scale output))%m.

(** Lines 83-85 of the loop body: the blank-slice guard and the save. *)
Definition save_if_bright (name : string) (s : nat)
    (output : list (list R)) : M unit :=
  (mx <- lift (amax (flatten2 output)) ;;
   if Rltb 1 mx then save (outname name s) output else ret tt)%m.

(** The generator after [k] slices of shape [m] by [n] were processed:
    each masked slice takes [m * n] draws, an unmasked slice none. *)
Definition rng_after (undersample : bool) (m n k : nat) (g : rng) : rng :=
  if undersample then mkRng (draws g) (pos g + k * (m * n)) else g.

(** The raster of depth [s] when the generator is [g]. *)
Definition raster_of (undersample : bool) (shape : nat * nat * nat)
    (img : list (list (list R))) (s : nat) (g : rng)
  : result (list (list R)) :=
  fst (slice_raster undersample shape img s (mkWorld g [])).

(** The files that depth [s] adds to the output directory. *)
Definition file_of (undersample : bool) (name : string)
    (shape : nat * nat * nat) (img : list (list (list R))) (s : nat)
    (g : rng) : list (string * list (list R)) :=
  match raster_of undersample shape img s g with
  | inr output =>
    match amax (flatten2 output) with
    | inr mx => if Rltb 1 mx then [(outname name s, output)] else []
    | inl _ => []
    end
  | inl _ => []
  end.

(** A volume too shallow for the depth window: one column of 100
    samples. *)
Definition shallow : nii := mkNii (1, 1, 100)%nat [[repeat 1 100]].

(** A volume of one column of 150 samples. *)
Definition column150 : nii := mkNii (1, 1, 150)%nat [[repeat 1 150]].

(** A 101 by 101 slice of constant intensity. *)
Definition slice101 : list (list R) := repeat (repeat (1 / 2) 101) 101.

(** A computation that neither reads nor advances the generator: run
    with another generator it returns the same result and writes the
    same files. *)
Definition rng_free {A : Type} (m : M A) : Prop :=
  forall g g' files,
    m (mkWorld g' files)
    = (fst (m (mkWorld g files)),
       mkWorld g' (w_written (snd (m (mkWorld g files))))).

(** ** Floating-point values

    Elsewhere in this development samples are real numbers. Where a
    property depends on what floating-point arithmetic does with
    overflow, rounding and NaN, the values are those of [fp]: the finite
    ones, the two infinities and NaN. *)
Inductive fp : Type :=
| Fin (r : R)
| PInf
| NInf
| NaN.

(** The order of the floating-point values; NaN is comparable with
    nothing. *)
Definition fp_le (a b : fp) : Prop :=
  match a, b with
  | NaN, _ | _, NaN => False
  | NInf, _ => True
  | _, PInf => True
  | Fin x, Fin y => x <= y
  | _, _ => False
  end.

(** [np.minimum] and [np.maximum] of two elements: NaN propagates. *)
Definition fp_minimum (a b : fp) : fp :=
  match a, b with
  | NaN, _ | _, NaN => NaN
  | NInf, _ | _, NInf => NInf
  | PInf, c | c, PInf => c
  | Fin x, Fin y => Fin (Rmin x y)
  end.

Definition fp_maximum (a b : fp) : fp :=
  match a, b with
  | NaN, _ | _, NaN => NaN
  | PInf, _ | _, PInf => PInf
  | NInf, c | c, NInf => c
  | Fin x, Fin y => Fin (Rmax x y)
  end.

(** [a - b]; [rnd] rounds the exact difference of two finite values. *)
Definition fp_sub (rnd : R -> fp) (a b : fp) : fp :=
  match a, b with
  | NaN, _ | _, NaN => NaN
  | PInf, PInf | NInf, NInf => NaN
  | PInf, _ | _, NInf => PInf
  | NInf, _ | _, PInf => NInf
  | Fin x, Fin y => rnd (x - y)
  end.

(** The finite values of the float32 format: a significand of at most
    24 bits times a power of two, down to the smallest subnormal. On
    such a value [.astype(np.float32)], line 67, is the identity. *)
Definition float32 (v : R) : Prop :=
  exists m e : Z,
    (Z.abs m < 2 ^ 24)%Z /\ (-149 <= e <= 104)%Z /\
    v = IZR m * powerRZ 2 e.

(** The rounding that a float32 operation applies to its exact result
    [x]: to an infinity when [x] overflows, to a finite value otherwise.
    What is used of it is what round-to-nearest guarantees: it is
    monotone (so never NaN), and a value of the format rounds to
    itself. *)
Definition is_rounding (rnd : R -> fp) : Prop :=
  (forall x y, x <= y -> fp_le (rnd x) (rnd y)) /\
  (forall v, float32 v -> rnd v = Fin v) /\
  (forall x y, rnd x = Fin y -> rnd y = Fin y).

(** [v * k] in float32 for a finite constant [k > 0]. *)
Definition fp_scale (rnd : R -> fp) (k : R) (v : fp) : fp :=
  match v with
  | Fin x => rnd (x * k)
  | PInf => PInf
  | NInf => NInf
  | NaN => NaN
  end.

(** Lines 79-81 on a float32 canvas that may hold infinities and NaN. *)
Definition clamp_scale_fp (rnd : R -> fp) (output : list (list fp))
  : list (list fp) :=
  let output := map (map (fun v => fp_minimum v (Fin 1))) output in
  let output := map (map (fun v => fp_maximum v (Fin 0))) output in
  map (map (fp_scale rnd 255)) output.

(** How the clamper relates an element of the canvas to its result. *)
Definition clamped (a b : fp) : Prop :=
  (a = NaN /\ b = NaN) \/
  (a <> NaN /\ exists r, b = Fin r /\ 0 <= r <= 255).

(** [img / np.max(img)], line 68, on a float32 volume of finite
    samples, with the rounding of the quotients made explicit;
    [normalize] is this with exact quotients. *)
Definition normalize_rnd (rnd : R -> fp) (img : list (list (list R)))
  : result (list (list (list fp))) :=
  rbind (amax (flatten3 img)) (fun mx =>
  Ok (map (map (map (fun v => rnd (v / mx)))) img)).

(** A volume of two float32 samples. *)
Definition volume12 : list (list (list R)) := [[[1; 2]]].

(** ** Definitions for the further properties *)

(** Reading a depth index back from its three digits. *)
Definition decode_03d (s : string) : option nat :=
  option_map Nat.of_uint (NilEmpty.uint_of_string s).

(** The files that the first [k] depth indices of the window add for
    volume [v], in a run that reaches the volume with generator [g]. *)
Definition volume_files (u : bool) (name : string) (v : nii) (k : nat)
    (g : rng) : list (string * list (list R)) :=
  match normalize (nii_fdata v) with
  | inr img =>
    flat_map (fun s =>
      file_of u name (nii_shape v) img s
              (rng_after u (dim0 v) (dim1 v) (s - slice_min) g))
      (seq slice_min k)
  | inl _ => []
  end.




(** A volume that fits the canvas but ends inside the depth window. *)
Definition short_volume (v : nii) : Prop :=
  nii_wf v /\
  (0 < dim0 v <= OUT_RESOLUTION)%nat /\
  (0 < dim1 v <= OUT_RESOLUTION)%nat /\
  (0 < dim2 v < slice_max)%nat.

(** The canvas that [compose] builds, as a function of the indices. *)
Definition canvas_of (n0 n1 : nat) (slice : list (list R)) (i j : nat) : R :=
  let b0 := Z.to_nat (hborder n0) in
  let b1 := Z.to_nat (hborder n1) in
  if ((b0 <=? i) && (i <? b0 + n0) && (b1 <=? j) && (j <? b1 + n1))%nat
  then get 0 slice (i - b0) (j - b1) else 0.

(** * psnrstats.py : statistics of a PSNR log

    The values of the log are float64 numbers, elements of [fp]. The
    regular expression, the conversions [int] and [float], the file
    system, the arithmetic of numpy (mean, median, standard deviation,
    percentiles, the rounding of a difference) and the plotting library
    are outside the program; they are the fields of [outside], and every
    property below holds whatever they do. A call into the plotting
    library is logged and may raise. *)

Module Psnr.

(** Exceptions, all of them subclasses of [Exception]. *)
Inductive error : Type :=
| KeyError (key : string)   (* lookup of a key the dict does not hold *)
| EmptyReduction            (* ValueError: [np.min] of an empty array *)
| ConversionError           (* ValueError: [int] of too long a string *)
| FileError                 (* [open] or the reading of a line failed *)
| PlotError.                (* raised inside the plotting library *)

Definition res (A : Type) : Type := (error + A)%type.

(** The calls into matplotlib, with the data they are given. *)
Inductive call : Type :=
| Subplots
| Hist (i : nat) (data : list fp)
| Axvline (i : nat) (x : fp)
| SetTitle (i : nat) (title : string) (mean : fp)
| SetXlabel (i : nat)
| SetYlabel (i : nat)
| TightLayout
| Savefig (file : string)
| Figure
| Plot (xs : list nat) (ys : list fp) (label : string)
| Xlabel
| Ylabel
| Title
| Legend
| Grid.

(** The four groups of a match of the line pattern. *)
Definition groups : Type := (string * string * string * string)%type.

Record outside : Type := mkOutside {
  (** [re.match] of the line pattern: the four groups, or [None]. *)
  re_match : string -> option groups;
  (** [int] of a string of digits: the number, or [None] for the
      [ValueError] that the interpreter raises on a string longer than
      its limit on the digits of an integer. *)
  int_of : string -> option nat;
  (** [float] of digits, a point and digits: it does not raise. *)
  float_of : string -> fp;
  (** [open] and the iteration over the file: the failure of [open], or
      the lines that the iteration yields and whether it then fails (on
      a line that cannot be decoded) instead of ending. *)
  read_lines : string -> res (list string * bool);
  np_mean : list fp -> fp;
  np_median : list fp -> fp;
  np_std : list fp -> fp;
  np_percentile : list fp -> R -> fp;
  (** The rounding of float64 arithmetic. *)
  round64 : R -> fp;
  (** Whether a call into the plotting library raises, given the calls
      made before it. *)
  raises : list call -> call -> bool
}.

(** A Python dict, in insertion order. *)
Definition dict (V : Type) : Type := list (string * V).

Fixpoint dict_get {V : Type} (d : dict V) (key : string) : res V :=
  match d with
  | [] => inl (KeyError key)
  | (k, v) :: d' => if String.eqb k key then inr v else dict_get d' key
  end.

(** Computations that call the plotting library: the state is the log
    of the calls made so far. *)
Definition P (A : Type) : Type := list call -> res A * list call.

Definition pret {A : Type} (a : A) : P A := fun log => (inr a, log).

Definition pbind {A B : Type} (m : P A) (k : A -> P B) : P B :=
  fun log =>
    match m log with
    | (inl e, log') => (inl e, log')
    | (inr a, log') => k a log'
    end.

Definition plift {A : Type} (r : res A) : P A := fun log => (r, log).

Definition ext (o : outside) (c : call) : P unit :=
  fun log =>
    if raises o log c then (inl PlotError, log ++ [c])
    else (inr tt, log ++ [c]).

Fixpoint pfor {A : Type} (xs : list A) (body : A -> P unit) : P unit :=
  match xs with
  | [] => pret tt
  | x :: xs' => pbind (body x) (fun _ => pfor xs' body)
  end.

(** The four lists that [parse_psnr_file] grows. *)
Record columns : Type := mkColumns {
  c_indices : list nat;
  c_noisy : list fp;
  c_denoised_clamped : list fp;
  c_denoised_psnr : list fp
}.

(** Lines 25-31: one turn of the loop over the lines. The index is
    converted first; when [int] raises nothing has been appended. *)
Definition parse_line (o : outside) (c : columns) (line : string)
  : res columns :=
  match re_match o line with
  | Some (idx, val1, val2, val3) =>
    match int_of o idx with
    | None => inl ConversionError
    | Some i =>
      inr (mkColumns (c_indices c ++ [i])
                     (c_noisy c ++ [float_of o val1])
                     (c_denoised_clamped c ++ [float_of o val2])
                     (c_denoised_psnr c ++ [float_of o val3]))
    end
  | None => inr c
  end.

(** Lines 23-31: the loop, which the first exception leaves. *)
Fixpoint parse_lines (o : outside) (lines : list string) (c : columns)
  : res columns :=
  match lines with
  | [] => inr c
  | line :: rest =>
    match parse_line o c line with
    | inl e => inl e
    | inr c' => parse_lines o rest c'
    end
  end.

(** [parse_psnr_file(file_path)], lines 6-37. *)
Definition parse_psnr_file (o : outside) (file_path : string)
  : res (dict (list fp) * list nat) :=
  match read_lines o file_path with
  | inl e => inl e
  | inr (lines, fails) =>
    match parse_lines o lines (mkColumns [] [] [] []) with
    | inl e => inl e
    | inr c =>
      if fails then inl FileError
      else inr ([("noisy"%string, c_noisy c);
                 ("denoised_clamped"%string, c_denoised_clamped c);
                 ("denoised_psnr"%string, c_denoised_psnr c)],
                c_indices c)
    end
  end.

(** [np.min] and [np.max] of a float64 array: they raise on an empty
    array and return NaN when the array holds one. *)
Definition np_min (data : list fp) : res fp :=
  match data with
  | [] => inl EmptyReduction
  | a :: l => inr (fold_left fp_minimum l a)
  end.

Definition np_max (data : list fp) : res fp :=
  match data with
  | [] => inl EmptyReduction
  | a :: l => inr (fold_left fp_maximum l a)
  end.

Record stat : Type := mkStat {
  s_mean : fp; s_median : fp; s_std : fp; s_min : fp; s_max : fp;
  s_range : fp; s_q1 : fp; s_q3 : fp
}.

(** Lines 46-55: the dict built for one column, its entries evaluated
    in the order they are written. *)
Definition column_stats (o : outside) (data : list fp) : res stat :=
  let mean := np_mean o data in
  let median := np_median o data in
  let std := np_std o data in
  match np_min data with
  | inl e => inl e
  | inr mn =>
    match np_max data with
    | inl e => inl e
    | inr mx =>
      match np_max data with
      | inl e => inl e
      | inr mx' =>
        match np_min data with
        | inl e => inl e
        | inr mn' =>
          inr (mkStat mean median std mn mx (fp_sub (round64 o) mx' mn')
                      (np_percentile o data 25) (np_percentile o data 75))
        end
      end
    end
  end.

(** [calculate_statistics(values)], lines 39-57. *)
Fixpoint calculate_statistics (o : outside) (values : dict (list fp))
  : res (dict stat) :=
  match values with
  | [] => inr []
  | (key, data) :: rest =>
    match column_stats o data with
    | inl e => inl e
    | inr s =>
      match calculate_statistics o rest with
      | inl e => inl e
      | inr stats => inr ((key, s) :: stats)
      end
    end
  end.

(** [plot_histograms(values)], lines 77-94. *)
Definition plot_histograms (o : outside) (values : dict (list fp))
  : P unit :=
  pbind (ext o Subplots) (fun _ =>
  let titles := ["Noisy"; "Denoised Method 1"; "Denoised Method 2"]%string in
  let data_keys := ["noisy"; "denoised_1"; "denoised_2"]%string in
  pbind (pfor (combine (seq 0 3) (combine titles data_keys))
          (fun itk =>
             let i := fst itk in
             let title := fst (snd itk) in
             let key := snd (snd itk) in
             pbind (plift (dict_get values key)) (fun data =>
             pbind (ext o (Hist i data)) (fun _ =>
             pbind (plift (dict_get values key)) (fun data =>
             pbind (ext o (Axvline i (np_mean o data))) (fun _ =>
             pbind (plift (dict_get values key)) (fun data =>
             pbind (ext o (SetTitle i title (np_mean o data))) (fun _ =>
             pbind (ext o (SetXlabel i)) (fun _ =>
             ext o (SetYlabel i))))))))))
        (fun _ =>
  pbind (ext o TightLayout) (fun _ =>
  ext o (Savefig "psnr_histograms.png")))).

(** [plot_comparison(values, indices)], lines 96-114. *)
Definition plot_comparison (o : outside) (values : dict (list fp))
    (indices : list nat) : P unit :=
  pbind (ext o Figure) (fun _ =>
  pbind (plift (dict_get values "noisy")) (fun ys =>
  pbind (ext o (Plot indices ys "Noisy")) (fun _ =>
  pbind (plift (dict_get values "denoised_1")) (fun ys =>
  pbind (ext o (Plot indices ys "Clamped PSNR")) (fun _ =>
  pbind (plift (dict_get values "denoised_2")) (fun ys =>
  pbind (ext o (Plot indices ys "Denoised PSNR")) (fun _ =>
  pbind (ext o Xlabel) (fun _ =>
  pbind (ext o Ylabel) (fun _ =>
  pbind (ext o Title) (fun _ =>
  pbind (ext o Legend) (fun _ =>
  pbind (ext o Grid) (fun _ =>
  pbind (ext o TightLayout) (fun _ =>
  ext o (Savefig "psnr_comparison.png")))))))))))))).

(** [print_statistics(stats)], lines 59-75: it reads the eight entries
    of every column, all of them present, and writes to the standard
    output only. *)
Definition print_statistics (stats : dict stat) : P unit := pret tt.

(** The body of the [try] in [main], lines 124-137. *)
Definition main_body (o : outside) (file_path : string) : P unit :=
  pbind (plift (parse_psnr_file o file_path)) (fun vi =>
  let values := fst vi in
  let indices := snd vi in
  pbind (plift (calculate_statistics o values)) (fun stats =>
  pbind (print_statistics stats) (fun _ =>
  pbind (plot_histograms o values) (fun _ =>
  plot_comparison o values indices)))).

(** [main()], lines 116-143, for the argument list [argv]; the result
    is the value returned and the log of plotting calls. *)
Definition main (o : outside) (argv : list string) (log : list call)
  : nat * list call :=
  let file_path :=
    if (1 <? length argv)%nat then nth 1 argv ""%string
    else "psnr.txt"%string in
  match main_body o file_path log with
  | (inl _, log') => (1%nat, log')
  | (inr _, log') => (0%nat, log')
  end.

(** *** Auxiliary definitions *)

Definition group_idx (g : groups) : string := fst (fst (fst g)).
Definition group_val1 (g : groups) : string := snd (fst (fst g)).
Definition group_val2 (g : groups) : string := snd (fst g).
Definition group_val3 (g : groups) : string := snd g.

(** The groups of the lines that match the pattern, in file order. *)
Definition groups_of (o : outside) (lines : list string) : list groups :=
  flat_map (fun line => match re_match o line with
                        | Some g => [g]
                        | None => []
                        end) lines.

(** The index of a match can be converted. *)
Definition convertible (o : outside) (g : groups) : Prop :=
  int_of o (group_idx g) <> None.

(** A converted line. *)
Definition row : Type := (nat * fp * fp * fp)%type.

Definition row_index (r : row) : nat := fst (fst (fst r)).
Definition row_noisy (r : row) : fp := snd (fst (fst r)).
Definition row_clamped (r : row) : fp := snd (fst r).
Definition row_psnr (r : row) : fp := snd r.

(** The conversion of the matches, up to the first that fails. *)
Fixpoint rows_of (o : outside) (gs : list groups) : res (list row) :=
  match gs with
  | [] => inr []
  | g :: gs' =>
    match int_of o (group_idx g) with
    | None => inl ConversionError
    | Some i =>
      match rows_of o gs' with
      | inl e => inl e
      | inr rows =>
        inr ((i, float_of o (group_val1 g), float_of o (group_val2 g),
              float_of o (group_val3 g)) :: rows)
      end
    end
  end.

(** The dict that [parse_psnr_file] builds from rows. *)
Definition values_of (rows : list row) : dict (list fp) :=
  [("noisy"%string, map row_noisy rows);
   ("denoised_clamped"%string, map row_clamped rows);
   ("denoised_psnr"%string, map row_psnr rows)].

(** What the minimum and the maximum of a column must satisfy: NaN when
    the column holds one, and otherwise values of the column that bound
    all the others. *)
Definition consistent (s : stat) (data : list fp) : Prop :=
  (In NaN data -> s_min s = NaN /\ s_max s = NaN) /\
  (~ In NaN data ->
   In (s_min s) data /\ In (s_max s) data /\
   Forall (fun v => fp_le (s_min s) v /\ fp_le v (s_max s)) data).

(** The calls that draw the first histogram. *)
Definition first_histogram (c : call) : Prop :=
  match c with
  | Subplots => True
  | Hist i _ | Axvline i _ | SetTitle i _ _ | SetXlabel i | SetYlabel i =>
    i = 0%nat
  | _ => False
  end.

(** An outside world with a three-line file, two of them matching, and
    a plotting library that never raises. *)
Definition sample_outside : outside :=
  mkOutside
    (fun line => if String.eqb line "" then None
                 else Some (line, "1.0", "2.0", "3.0")%string)
    (fun idx => Some (String.length idx))
    (fun val => Fin 1)
    (fun _ => inr (["a"; ""; "bcd"]%string, false))
    (fun data => Fin 0) (fun data => Fin 0) (fun data => Fin 0)
    (fun data q => Fin 0) Fin (fun _ _ => false).

(** An outside world whose file holds no matching line. *)
Definition blank_outside : outside :=
  mkOutside (fun _ => None) (fun _ => None) (fun _ => NaN)
            (fun _ => inr (["x"; "y"]%string, false))
            (fun data => Fin 0) (fun data => Fin 0) (fun data => Fin 0)
            (fun data q => Fin 0) Fin (fun _ _ => false).

(** An outside world whose file holds a line with an index that [int]
    refuses. *)
Definition long_outside : outside :=
  mkOutside (fun line => Some (line, "1.0", "2.0", "3.0")%string)
            (fun idx => if (String.length idx <=? 1)%nat
                        then Some (String.length idx) else None)
            (fun _ => Fin 1)
            (fun _ => inr (["7"; "99"; "5"]%string, false))
            (fun data => Fin 0) (fun data => Fin 0) (fun data => Fin 0)
            (fun data q => Fin 0) Fin (fun _ _ => false).

End Psnr.
(** ** Facts on one axis *)

Section AxisFacts.
Context {T : Type}.
Implicit Types (a : list T).

Lemma swap_halves_length k a : length (swap_halves k a) = length a.
Proof.
  unfold swap_halves. rewrite length_app, length_skipn, length_firstn. lia.
Qed.

Lemma swap_halves_inv k a :
  (k <= length a)%nat ->
  swap_halves (length a - k) (swap_halves k a) = a.
Proof.
  intros Hk. unfold swap_halves.
  assert (Hl : length (skipn k a) = (length a - k)%nat) by apply length_skipn.
  rewrite <- Hl at 1. rewrite skipn_app, skipn_all, Nat.sub_diag. simpl.
  rewrite <- Hl. rewrite firstn_app, firstn_all, Nat.sub_diag. simpl.
  rewrite app_nil_r. apply firstn_skipn.
Qed.

Lemma swap_halves_all a : swap_halves (length a) a = swap_halves 0 a.
Proof.
  unfold swap_halves. rewrite skipn_all, firstn_all. simpl.
  now rewrite app_nil_r.
Qed.

Lemma roll_swap_halves a (s : Z) :
  (0 < length a)%nat ->
  roll a s = swap_halves (length a - Z.to_nat (s mod Z.of_nat (length a))) a.
Proof.
  intros Hpos. unfold roll.
  destruct (Nat.eqb_spec (length a) 0); [lia|reflexivity].
Qed.

Lemma roll_length a s : length (roll a s) = length a.
Proof.
  unfold roll. destruct (Nat.eqb_spec (length a) 0); [reflexivity|].
  apply swap_halves_length.
Qed.

Lemma map_swap_halves {U : Type} (f : T -> U) k a :
  map f (swap_halves k a) = swap_halves k (map f a).
Proof. unfold swap_halves. now rewrite map_app, skipn_map, firstn_map. Qed.

Lemma Forall_swap_halves (P : T -> Prop) k a :
  Forall P a -> Forall P (swap_halves k a).
Proof.
  intros H. unfold swap_halves.
  rewrite <- (firstn_skipn k a) in H. apply Forall_app in H as [H1 H2].
  apply Forall_app. now split.
Qed.

Lemma Forall_roll (P : T -> Prop) a s : Forall P a -> Forall P (roll a s).
Proof.
  intros H. unfold roll. destruct (Nat.eqb_spec (length a) 0); [assumption|].
  now apply Forall_swap_halves.
Qed.

End AxisFacts.

(** ** Facts on rectangular arrays *)

Section RectFacts.
Context {T : Type}.
Implicit Types (x : list (list T)).

Lemma rect_shape0 m n x : rect m n x -> shape0 x = m.
Proof. now intros [H _]. Qed.

Lemma rect_shape1 m n x : rect m n x -> (0 < m)%nat -> shape1 x = n.
Proof.
  intros [Hm Hr] Hpos. unfold shape1.
  destruct x as [|r x]; simpl in *; [lia|].
  now inversion Hr.
Qed.

Lemma rect_row m n x r : rect m n x -> In r x -> length r = n.
Proof. intros [_ Hr] Hin. rewrite Forall_forall in Hr. now apply Hr. Qed.

Lemma concatenate1_map (f g : list T -> list T) x :
  concatenate1 (map f x) (map g x) = map (fun r => f r ++ g r) x.
Proof.
  unfold concatenate1. induction x as [|r x IH]; simpl; [reflexivity|].
  now rewrite IH.
Qed.

Lemma rect_map_rows {U : Type} (f : list T -> list U) m n x :
  (forall r, length (f r) = length r) ->
  rect m n x -> rect m n (map f x).
Proof.
  intros Hf [Hm Hr]. split; [now rewrite length_map|].
  rewrite Forall_forall in *. intros r' Hin.
  apply in_map_iff in Hin as (r & <- & Hin). rewrite Hf. now apply Hr.
Qed.

Lemma rect_swap_halves k m n x : rect m n x -> rect m n (swap_halves k x).
Proof.
  intros [Hm Hr]. split; [now rewrite swap_halves_length|].
  now apply Forall_swap_halves.
Qed.

Lemma rect_roll m n x s : rect m n x -> rect m n (roll x s).
Proof.
  intros [Hm Hr]. split; [now rewrite roll_length|]. now apply Forall_roll.
Qed.

Lemma rect_roll2 m n x s0 s1 : rect m n x -> rect m n (roll2 x s0 s1).
Proof.
  intros H. unfold roll2. apply rect_map_rows.
  - intros r. apply roll_length.
  - now apply rect_roll.
Qed.

Lemma map_ext_rect {U : Type} (f g : list T -> U) m n x :
  rect m n x -> (forall r, length r = n -> f r = g r) -> map f x = map g x.
Proof.
  intros H Hfg. apply map_ext_in. intros r Hin. apply Hfg.
  eapply rect_row; eassumption.
Qed.

(** The hand-rolled shift in terms of [swap_halves2]. *)
Lemma fftshift2d_odd m n x ifft :
  rect m n x -> Nat.odd m = true -> Nat.odd n = true ->
  fftshift2d x ifft
  = Ok (swap_halves2 (m / 2 + (if ifft then 0 else 1))
                     (n / 2 + (if ifft then 0 else 1)) x).
Proof.
  intros Hx Hm Hn.
  assert (Hpos : (0 < m)%nat) by (destruct m; [discriminate|lia]).
  unfold fftshift2d.
  rewrite (rect_shape0 Hx), (rect_shape1 Hx Hpos), Hm, Hn. simpl.
  unfold concatenate0, swap_halves2. rewrite concatenate1_map.
  reflexivity.
Qed.

Lemma rect_swap_halves2 k0 k1 m n x :
  rect m n x -> rect m n (swap_halves2 k0 k1 x).
Proof.
  intros H. unfold swap_halves2. apply rect_map_rows.
  - intros r. apply swap_halves_length.
  - now apply rect_swap_halves.
Qed.

(** numpy's rolls are half-swaps too. *)
Lemma roll2_swap_halves2 m n x s0 s1 :
  rect m n x -> (0 < m)%nat -> (0 < n)%nat ->
  roll2 x s0 s1
  = swap_halves2 (m - Z.to_nat (s0 mod Z.of_nat m))
                 (n - Z.to_nat (s1 mod Z.of_nat n)) x.
Proof.
  intros Hx Hm Hn. unfold roll2, swap_halves2.
  pose proof Hx as [Hlen _].
  rewrite (roll_swap_halves x) by lia. rewrite Hlen.
  eapply map_ext_rect.
  - apply rect_swap_halves. eassumption.
  - intros r Hr. rewrite roll_swap_halves by lia. now rewrite Hr.
Qed.

(** Undoing a swap of both axes. *)
Lemma swap_halves2_inv k0 k1 m n x :
  rect m n x -> (k0 <= m)%nat -> (k1 <= n)%nat ->
  swap_halves2 (m - k0) (n - k1) (swap_halves2 k0 k1 x) = x.
Proof.
  intros Hx H0 H1. pose proof Hx as [Hlen _]. unfold swap_halves2.
  rewrite <- map_swap_halves, map_map.
  rewrite <- (swap_halves_length k0 x) in Hlen.
  rewrite <- Hlen at 1.
  erewrite map_ext_rect.
  - rewrite map_id. rewrite swap_halves_length. apply swap_halves_inv.
    rewrite swap_halves_length in Hlen. lia.
  - apply rect_swap_halves, rect_swap_halves. eassumption.
  - intros r Hr. simpl. rewrite <- Hr. apply swap_halves_inv. lia.
Qed.

End RectFacts.

(** ** Sanity checks on concrete inputs *)

Example roll_forward : roll [0; 1; 2; 3; 4]%nat 2 = [3; 4; 0; 1; 2]%nat.
Proof. reflexivity. Qed.

Example roll_backward : roll [0; 1; 2; 3; 4]%nat (-2) = [2; 3; 4; 0; 1]%nat.
Proof. reflexivity. Qed.

Example roll_whole_turn : roll [0; 1; 2]%nat 3 = [0; 1; 2]%nat.
Proof. reflexivity. Qed.

Example np_fftshift_2x2 :
  np_fftshift [[1; 2]; [3; 4]]%nat = [[4; 3]; [2; 1]]%nat.
Proof. reflexivity. Qed.

Example np_fftshift_3x3 :
  np_fftshift [[1; 2; 3]; [4; 5; 6]; [7; 8; 9]]%nat
  = [[9; 7; 8]; [3; 1; 2]; [6; 4; 5]]%nat.
Proof. reflexivity. Qed.

Example fftshift2d_2x2 :
  fftshift2d [[1; 2]; [3; 4]]%nat false = Raise AssertionError.
Proof. reflexivity. Qed.

Example fftshift2d_3x2 :
  fftshift2d [[1; 2]; [3; 4]; [5; 6]]%nat true = Raise AssertionError.
Proof. reflexivity. Qed.

Example fmt_03d_7 : fmt_03d 7 = "007"%string.
Proof. reflexivity. Qed.

Example fmt_03d_25 : fmt_03d 25 = "025"%string.
Proof. reflexivity. Qed.

Example fmt_03d_124 : fmt_03d 124 = "124"%string.
Proof. reflexivity. Qed.

Example fmt_03d_1234 : fmt_03d 1234 = "1234"%string.
Proof. reflexivity. Qed.

Example outname_25 :
  outname "IXI002-Guys-0828-T1" 25 = "IXI002-Guys-0828-T1_025.png"%string.
Proof. reflexivity. Qed.

Example hborder_101 : hborder 101 = 77%Z.
Proof. reflexivity. Qed.

Example hborder_256 : hborder 256 = 0%Z.
Proof. reflexivity. Qed.

Example hborder_257 : hborder 257 = (-1)%Z.
Proof. reflexivity. Qed.

Example hborder_300 : hborder 300 = (-22)%Z.
Proof. reflexivity. Qed.

(** On a 256 canvas the Python slice [-22:278] selects [234:256]. *)
Example slice_bound_negative : slice_bound 256 (-22) = 234%nat.
Proof. reflexivity. Qed.

Example slice_bound_clipped : slice_bound 256 278 = 256%nat.
Proof. reflexivity. Qed.

Example window_is_100_slices :
  length (seq slice_min (slice_max - slice_min)) = 100%nat.
Proof. reflexivity. Qed.

(** ** Facts on tabulated arrays *)

Section TabFacts.
Context {A : Type}.

Lemma tab_length n (f : nat -> A) : length (tab n f) = n.
Proof. unfold tab. now rewrite length_map, length_seq. Qed.

Lemma tab_nth n (f : nat -> A) k d : (k < n)%nat -> nth k (tab n f) d = f k.
Proof.
  intros Hk. unfold tab.
  rewrite (nth_indep _ d (f 0%nat)) by now rewrite length_map, length_seq.
  rewrite map_nth. now rewrite seq_nth.
Qed.

Lemma tab_ext n (f g : nat -> A) :
  (forall k, (k < n)%nat -> f k = g k) -> tab n f = tab n g.
Proof.
  intros H. unfold tab. apply map_ext_in. intros k Hk.
  apply in_seq in Hk. apply H. lia.
Qed.

Lemma tab_S n (f : nat -> A) : tab (S n) f = tab n f ++ [f n].
Proof. unfold tab. now rewrite seq_S, map_app. Qed.

(** A list is the table of its elements. *)
Lemma tab_of_nth (l : list A) d : tab (length l) (fun k => nth k l d) = l.
Proof.
  induction l as [|a l IH] using rev_ind; [reflexivity|].
  rewrite length_app. simpl. rewrite Nat.add_1_r, tab_S.
  rewrite app_nth2, Nat.sub_diag by lia. simpl. f_equal.
  rewrite <- IH at 2. apply tab_ext. intros k Hk. now rewrite app_nth1.
Qed.

Lemma map_tab {B : Type} (g : A -> B) n (f : nat -> A) :
  map g (tab n f) = tab n (fun k => g (f k)).
Proof. unfold tab. now rewrite map_map. Qed.

Lemma Forall_tab (P : A -> Prop) n (f : nat -> A) :
  (forall k, (k < n)%nat -> P (f k)) -> Forall P (tab n f).
Proof.
  intros H. unfold tab. rewrite Forall_forall. intros a Ha.
  apply in_map_iff in Ha as (k & <- & Hk). apply in_seq in Hk.
  apply H. lia.
Qed.

End TabFacts.

Section TabFacts2.
Context {A : Type}.

Lemma rect_tab m n (f : nat -> nat -> A) :
  rect m n (tab m (fun i => tab n (f i))).
Proof.
  split; [apply tab_length|]. apply Forall_tab. intros k _. apply tab_length.
Qed.

Lemma get_tab m n (f : nat -> nat -> A) d i j :
  (i < m)%nat -> (j < n)%nat ->
  get d (tab m (fun i => tab n (f i))) i j = f i j.
Proof. intros Hi Hj. unfold get. now rewrite tab_nth, tab_nth. Qed.

(** A rectangular array is the table of its elements. *)
Lemma rect_tab_get m n (x : list (list A)) d :
  rect m n x -> tab m (fun i => tab n (fun j => get d x i j)) = x.
Proof.
  intros [Hm Hr].
  transitivity (tab (length x) (fun i => nth i x [])); [|apply tab_of_nth].
  rewrite Hm. apply tab_ext. intros i Hi. unfold get.
  rewrite Forall_forall in Hr.
  rewrite <- (Hr (nth i x [])) by (apply nth_In; lia).
  apply tab_of_nth.
Qed.

(** Two arrays of one shape with the same elements are equal. *)
Lemma rect_ext m n (x y : list (list A)) d :
  rect m n x -> rect m n y ->
  (forall i j, (i < m)%nat -> (j < n)%nat -> get d x i j = get d y i j) ->
  x = y.
Proof.
  intros Hx Hy H. rewrite <- (rect_tab_get d Hx), <- (rect_tab_get d Hy).
  apply tab_ext. intros i Hi. apply tab_ext. intros j Hj. now apply H.
Qed.

End TabFacts2.

Lemma nth_repeat_default {A : Type} (a : A) n k : nth k (repeat a n) a = a.
Proof.
  revert k. induction n as [|n IH]; intros [|k]; simpl; auto.
Qed.


(** ** Complex arithmetic and finite sums *)

Ltac cplx :=
  repeat match goal with z : C |- _ => destruct z end;
  unfold Cadd, Cmul, Cscal, RtoC, C0, C1; cbn [fst snd];
  f_equal; try ring.

Lemma Cadd_comm z w : Cadd z w = Cadd w z.
Proof. cplx. Qed.

Lemma Cadd_assoc z w u : Cadd z (Cadd w u) = Cadd (Cadd z w) u.
Proof. cplx. Qed.

Lemma Cadd_0_l z : Cadd C0 z = z.
Proof. cplx. Qed.

Lemma Cadd_0_r z : Cadd z C0 = z.
Proof. cplx. Qed.

Lemma Cmul_comm z w : Cmul z w = Cmul w z.
Proof. cplx. Qed.

Lemma Cmul_assoc z w u : Cmul z (Cmul w u) = Cmul (Cmul z w) u.
Proof. cplx. Qed.

Lemma Cmul_1_r z : Cmul z C1 = z.
Proof. cplx. Qed.

Lemma Cmul_0_l z : Cmul C0 z = C0.
Proof. cplx. Qed.

Lemma Cmul_0_r z : Cmul z C0 = C0.
Proof. cplx. Qed.

Lemma Cmul_add_distr_r z w u :
  Cmul (Cadd z w) u = Cadd (Cmul z u) (Cmul w u).
Proof. cplx. Qed.

Lemma Cmul_add_distr_l u z w :
  Cmul u (Cadd z w) = Cadd (Cmul u z) (Cmul u w).
Proof. cplx. Qed.

Lemma Cscal_Cmul r z : Cscal r z = Cmul z (RtoC r).
Proof. cplx. Qed.


Lemma Cabs_RtoC r : Cabs (RtoC r) = Rabs r.
Proof.
  unfold Cabs, RtoC. cbn [fst snd].
  replace (r * r + 0 * 0) with (r ^ 2) by ring.
  rewrite <- sqrt_Rsqr_abs. unfold Rsqr. f_equal. ring.
Qed.


Lemma cis_0 : cis 0 = C1.
Proof. unfold cis, C1. now rewrite cos_0, sin_0. Qed.

Lemma cis_add a b : cis (a + b) = Cmul (cis a) (cis b).
Proof.
  unfold cis, Cmul. cbn [fst snd]. rewrite cos_plus, sin_plus.
  f_equal; ring.
Qed.

(** Whole turns. *)
Lemma cis_turns (k : nat) : cis (2 * INR k * PI) = C1.
Proof.
  unfold cis, C1.
  replace (2 * INR k * PI) with (0 + 2 * INR k * PI) by ring.
  now rewrite cos_period, sin_period, cos_0, sin_0.
Qed.

Section Sums.
Implicit Types (f g : nat -> C).

Lemma Csum_ext n f g :
  (forall k, (k < n)%nat -> f k = g k) -> Csum n f = Csum n g.
Proof.
  induction n as [|n IH]; intros H; simpl; [reflexivity|].
  rewrite IH by (intros k Hk; apply H; lia). now rewrite H by lia.
Qed.

Lemma Csum_zero n f : (forall k, (k < n)%nat -> f k = C0) -> Csum n f = C0.
Proof.
  induction n as [|n IH]; intros H; simpl; [reflexivity|].
  rewrite IH by (intros k Hk; apply H; lia). rewrite H by lia.
  apply Cadd_0_l.
Qed.

Lemma Csum_add n f g :
  Csum n (fun k => Cadd (f k) (g k)) = Cadd (Csum n f) (Csum n g).
Proof.
  induction n as [|n IH]; simpl; [now rewrite Cadd_0_l|].
  rewrite IH. generalize (Csum n f) (Csum n g) (f n) (g n). intros.
  cplx.
Qed.

Lemma Csum_mul_r n f c :
  Csum n (fun k => Cmul (f k) c) = Cmul (Csum n f) c.
Proof.
  induction n as [|n IH]; simpl; [now rewrite Cmul_0_l|].
  now rewrite IH, Cmul_add_distr_r.
Qed.

Lemma Csum_mul_l n f c :
  Csum n (fun k => Cmul c (f k)) = Cmul c (Csum n f).
Proof.
  induction n as [|n IH]; simpl; [now rewrite Cmul_0_r|].
  now rewrite IH, Cmul_add_distr_l.
Qed.

Lemma Csum_swap m n (h : nat -> nat -> C) :
  Csum m (fun i => Csum n (fun j => h i j))
  = Csum n (fun j => Csum m (fun i => h i j)).
Proof.
  induction m as [|m IH]; simpl.
  - symmetry. now apply Csum_zero.
  - now rewrite IH, Csum_add.
Qed.

(** A sum with a single non-zero term. *)
Lemma Csum_single n f l :
  (l < n)%nat -> (forall k, (k < n)%nat -> k <> l -> f k = C0) ->
  Csum n f = f l.
Proof.
  induction n as [|n IH]; intros Hl H; [lia|]. simpl.
  destruct (Nat.eq_dec l n) as [->|Hne].
  - rewrite Csum_zero by (intros k Hk; apply H; lia). apply Cadd_0_l.
  - rewrite IH by (try lia; intros k Hk Hkl; apply H; lia).
    rewrite (H n) by lia. apply Cadd_0_r.
Qed.

Lemma Csum_const_1 n : Csum n (fun _ => C1) = RtoC (INR n).
Proof.
  induction n as [|n IH]; [reflexivity|].
  cbn [Csum]. rewrite IH, S_INR. cplx.
Qed.

End Sums.

(** ** Roots of unity *)

Lemma cis_neg_turns (k : nat) : cis (- (2 * INR k * PI)) = C1.
Proof.
  pose proof (cis_turns k) as H. unfold cis, C1 in *.
  injection H as Hc Hs. rewrite cos_neg, sin_neg, Hc, Hs. f_equal. ring.
Qed.

(** Geometric sum, without division:
    [z * (1 + z + ... + z^(n-1)) + 1 = (1 + z + ... + z^(n-1)) + z^n]. *)
Lemma geometric_sum t n :
  Cadd (Cmul (cis t) (Csum n (fun k => cis (INR k * t)))) C1
  = Cadd (Csum n (fun k => cis (INR k * t))) (cis (INR n * t)).
Proof.
  induction n as [|n IH].
  - simpl. rewrite Rmult_0_l, cis_0, Cmul_0_r. cplx.
  - cbn [Csum]. rewrite Cmul_add_distr_l.
    replace (INR (S n) * t) with (t + INR n * t) by (rewrite S_INR; ring).
    rewrite (cis_add t (INR n * t)).
    set (S := Csum n (fun k => cis (INR k * t))) in *.
    set (u := Cmul (cis t) (cis (INR n * t))).
    transitivity (Cadd (Cadd (Cmul (cis t) S) C1) u).
    + generalize (Cmul (cis t) S). intros. cplx.
    + rewrite IH. reflexivity.
Qed.

Lemma cos_double_neq_1 x : 0 < x < PI -> cos (2 * x) <> 1.
Proof.
  intros [H0 H1]. rewrite cos_2a_sin.
  pose proof (sin_gt_0 x H0 H1). nra.
Qed.

(** The powers of a root of unity other than one sum to zero. *)
Lemma root_sum_zero t n :
  cos t <> 1 -> cis (INR n * t) = C1 ->
  Csum n (fun k => cis (INR k * t)) = C0.
Proof.
  intros Hc Hn. pose proof (geometric_sum t n) as G. rewrite Hn in G.
  pose proof (sin2_cos2 t) as Hu. unfold Rsqr in Hu.
  destruct (Csum n (fun k => cis (INR k * t))) as [a b].
  unfold cis, Cmul, Cadd, C1, C0 in *. cbn [fst snd] in G.
  injection G as G1 G2.
  set (c := cos t) in *. set (s := sin t) in *.
  assert (E1 : (c - 1) * a - s * b = 0) by lra.
  assert (E2 : (c - 1) * b + s * a = 0) by lra.
  assert (Hd : 0 < (c - 1) * (c - 1) + s * s) by nra.
  assert (Ha : ((c - 1) * (c - 1) + s * s) * a = 0).
  { replace (((c - 1) * (c - 1) + s * s) * a)
      with ((c - 1) * ((c - 1) * a - s * b) + s * ((c - 1) * b + s * a))
      by ring.
    rewrite E1, E2. ring. }
  assert (Hb : ((c - 1) * (c - 1) + s * s) * b = 0).
  { replace (((c - 1) * (c - 1) + s * s) * b)
      with ((c - 1) * ((c - 1) * b + s * a) - s * ((c - 1) * a - s * b))
      by ring.
    rewrite E1, E2. ring. }
  apply Rmult_integral in Ha as [Ha|Ha]; [lra|].
  apply Rmult_integral in Hb as [Hb|Hb]; [lra|].
  now rewrite Ha, Hb.
Qed.

Lemma INR_pos_neq n : (0 < n)%nat -> INR n <> 0.
Proof. intros H. apply not_0_INR. lia. Qed.

Lemma twiddle_pair n j k l :
  (0 < n)%nat ->
  Cmul (twiddle (-1) n j k) (twiddle 1 n k l) = cis (INR k * gap n j l).
Proof.
  intros Hn. unfold twiddle, gap. rewrite <- cis_add. f_equal.
  field. now apply INR_pos_neq.
Qed.

Lemma gap_full n j l : (0 < n)%nat -> cis (INR n * gap n j l) = C1.
Proof.
  intros Hn. unfold gap.
  replace (INR n * (2 * PI * (INR l - INR j) / INR n))
    with (2 * INR l * PI + - (2 * INR j * PI))
    by (field; now apply INR_pos_neq).
  now rewrite cis_add, cis_turns, cis_neg_turns, Cmul_1_r.
Qed.

Lemma gap_cos n j l :
  (j < n)%nat -> (l < n)%nat -> j <> l -> cos (gap n j l) <> 1.
Proof.
  intros Hj Hl Hne.
  assert (Hn : 0 < INR n) by (apply lt_0_INR; lia).
  pose proof PI_RGT_0 as Hpi.
  assert (Hjn : INR j < INR n) by now apply lt_INR.
  assert (Hln : INR l < INR n) by now apply lt_INR.
  pose proof (pos_INR j). pose proof (pos_INR l).
  destruct (Nat.lt_total j l) as [Hlt|[Heq|Hgt]]; [|contradiction|].
  - assert (Hd : INR j < INR l) by now apply lt_INR.
    replace (gap n j l) with (2 * (PI * ((INR l - INR j) / INR n)))
      by (unfold gap; field; lra).
    apply cos_double_neq_1.
    assert (0 < (INR l - INR j) / INR n < 1).
    { split.
      - apply Rdiv_lt_0_compat; lra.
      - apply Rmult_lt_reg_r with (INR n); [assumption|].
        unfold Rdiv. rewrite Rmult_assoc, Rinv_l by lra. lra. }
    nra.
  - assert (Hd : INR l < INR j) by now apply lt_INR.
    rewrite <- cos_neg.
    replace (- gap n j l) with (2 * (PI * ((INR j - INR l) / INR n)))
      by (unfold gap; field; lra).
    apply cos_double_neq_1.
    assert (0 < (INR j - INR l) / INR n < 1).
    { split.
      - apply Rdiv_lt_0_compat; lra.
      - apply Rmult_lt_reg_r with (INR n); [assumption|].
        unfold Rdiv. rewrite Rmult_assoc, Rinv_l by lra. lra. }
    nra.
Qed.

(** Orthogonality of the two transform kernels. *)
Lemma twiddle_orthogonal n j l :
  (j < n)%nat -> (l < n)%nat ->
  Csum n (fun k => Cmul (twiddle (-1) n j k) (twiddle 1 n k l))
  = if (j =? l)%nat then RtoC (INR n) else C0.
Proof.
  intros Hj Hl. assert (Hn : (0 < n)%nat) by lia.
  rewrite Csum_ext with (g := fun k => cis (INR k * gap n j l))
    by (intros k _; now apply twiddle_pair).
  destruct (Nat.eqb_spec j l) as [->|Hne].
  - rewrite <- Csum_const_1. apply Csum_ext. intros k _.
    unfold gap. rewrite <- cis_0. f_equal. field. now apply INR_pos_neq.
  - apply root_sum_zero; [now apply gap_cos|now apply gap_full].
Qed.

(** ** The discrete Fourier transform and its inverse *)

Lemma fft_ktf a : fft a = ktf Kfft a.
Proof. reflexivity. Qed.

Lemma ifft_ktf a : ifft a = ktf Kifft a.
Proof.
  unfold ifft, dft, ktf, Kifft. rewrite map_tab. apply tab_ext.
  intros k _. rewrite Cscal_Cmul, <- Csum_mul_r. apply Csum_ext.
  intros j _. rewrite Cscal_Cmul. symmetry. apply Cmul_assoc.
Qed.

Lemma ktf_length K a : length (ktf K a) = length a.
Proof. apply tab_length. Qed.

Lemma ktf_nth K a k :
  (k < length a)%nat ->
  nth k (ktf K a) C0
  = Csum (length a) (fun j => Cmul (nth j a C0) (K (length a) j k)).
Proof. intros Hk. unfold ktf. now rewrite tab_nth. Qed.

(** One axis: the inverse transform undoes the transform. *)
Lemma ifft_fft a : (0 < length a)%nat -> ifft (fft a) = a.
Proof.
  intros Hn. rewrite ifft_ktf, fft_ktf.
  set (n := length a) in *.
  transitivity (tab n (fun l => nth l a C0)); [|apply tab_of_nth].
  unfold ktf at 1. rewrite ktf_length. fold n.
  apply tab_ext. intros l Hl.
  rewrite Csum_ext with
    (g := fun k => Csum n (fun j =>
            Cmul (nth j a C0)
                 (Cmul (Cmul (Kfft n j k) (twiddle 1 n k l))
                       (RtoC (/ INR n))))).
  2:{ intros k Hk. rewrite ktf_nth by assumption. fold n.
      rewrite <- Csum_mul_r. apply Csum_ext. intros j _.
      unfold Kifft. rewrite Cscal_Cmul.
      generalize (nth j a C0) (Kfft n j k) (twiddle 1 n k l). intros.
      cplx. }
  rewrite Csum_swap.
  rewrite Csum_ext with
    (g := fun j => Cmul (nth j a C0)
                        (if (j =? l)%nat then C1 else C0)).
  2:{ intros j Hj. rewrite Csum_mul_l. f_equal.
      rewrite Csum_mul_r. unfold Kfft.
      rewrite twiddle_orthogonal by assumption.
      destruct (j =? l)%nat; [|apply Cmul_0_l].
      unfold Cmul, RtoC, C1. cbn [fst snd]. f_equal; [|ring].
      field. now apply INR_pos_neq. }
  rewrite Csum_single with (l := l); try assumption.
  - now rewrite Nat.eqb_refl, Cmul_1_r.
  - intros k _ Hne. destruct (Nat.eqb_spec k l); [contradiction|].
    apply Cmul_0_r.
Qed.

(** *** Two axes *)

Lemma transpose_rect m n x :
  rect m n x -> (0 < m)%nat -> rect n m (transpose x).
Proof.
  intros Hx Hm. unfold transpose. rewrite (rect_shape1 Hx Hm).
  split; [apply tab_length|]. apply Forall_tab. intros j _.
  rewrite length_map. apply Hx.
Qed.

Lemma transpose_get m n x i j :
  rect m n x -> (i < m)%nat -> (j < n)%nat ->
  get C0 (transpose x) j i = get C0 x i j.
Proof.
  intros Hx Hi Hj. unfold transpose, get.
  rewrite (rect_shape1 Hx) by lia. rewrite tab_nth by assumption.
  rewrite (nth_indep _ C0 ((fun r => nth j r C0) []))
    by (rewrite length_map; destruct Hx as [-> _]; exact Hi).
  now rewrite (map_nth (fun r => nth j r C0)).
Qed.

Lemma transpose_involutive m n x :
  rect m n x -> (0 < m)%nat -> (0 < n)%nat -> transpose (transpose x) = x.
Proof.
  intros Hx Hm Hn. pose proof (transpose_rect Hx Hm) as Ht.
  apply rect_ext with (m := m) (n := n) (d := C0); try assumption.
  - now apply transpose_rect.
  - intros i j Hi Hj.
    now rewrite (transpose_get Ht), (transpose_get Hx).
Qed.

Lemma axis1_rect K m n x : rect m n x -> rect m n (map (ktf K) x).
Proof. apply rect_map_rows. apply ktf_length. Qed.

Lemma axis1_get K m n x i k :
  rect m n x -> (i < m)%nat -> (k < n)%nat ->
  get C0 (map (ktf K) x) i k
  = Csum n (fun j => Cmul (get C0 x i j) (K n j k)).
Proof.
  intros Hx Hi Hk. unfold get.
  assert (Hr : length (nth i x []) = n).
  { eapply rect_row; [exact Hx|]. apply nth_In.
    destruct Hx as [-> _]. exact Hi. }
  rewrite (nth_indep _ [] (ktf K []))
    by (rewrite length_map; destruct Hx as [-> _]; exact Hi).
  rewrite map_nth, ktf_nth by now rewrite Hr. now rewrite Hr.
Qed.

Lemma axis0_rect K m n x :
  rect m n x -> (0 < m)%nat -> (0 < n)%nat ->
  rect m n (along_axis0 (ktf K) x).
Proof.
  intros Hx Hm Hn. unfold along_axis0. apply transpose_rect; [|assumption].
  apply axis1_rect. now apply transpose_rect.
Qed.

Lemma axis0_get K m n x k j :
  rect m n x -> (k < m)%nat -> (j < n)%nat ->
  get C0 (along_axis0 (ktf K) x) k j
  = Csum m (fun i => Cmul (get C0 x i j) (K m i k)).
Proof.
  intros Hx Hk Hj. unfold along_axis0.
  assert (Hm : (0 < m)%nat) by lia.
  pose proof (transpose_rect Hx Hm) as Ht.
  rewrite (transpose_get (axis1_rect K Ht)) by assumption.
  rewrite (axis1_get K Ht) by assumption.
  apply Csum_ext. intros i Hi. now rewrite (transpose_get Hx).
Qed.

(** Transforms of different axes commute. *)
Lemma axis_commute K K' m n x :
  rect m n x -> (0 < m)%nat -> (0 < n)%nat ->
  map (ktf K') (along_axis0 (ktf K) x)
  = along_axis0 (ktf K) (map (ktf K') x).
Proof.
  intros Hx Hm Hn.
  apply rect_ext with (m := m) (n := n) (d := C0).
  - apply axis1_rect. now apply axis0_rect.
  - apply axis0_rect; try assumption. now apply axis1_rect.
  - intros p q Hp Hq.
    rewrite (axis1_get K' (axis0_rect K Hx Hm Hn)) by assumption.
    rewrite (axis0_get K (axis1_rect K' Hx)) by assumption.
    rewrite Csum_ext with
      (g := fun k => Csum m (fun i =>
              Cmul (Cmul (get C0 x i k) (K m i p)) (K' n k q)))
      by (intros k Hk; rewrite (axis0_get K Hx) by assumption;
          now rewrite Csum_mul_r).
    rewrite Csum_swap. apply Csum_ext. intros i Hi.
    rewrite (axis1_get K' Hx) by assumption.
    rewrite <- Csum_mul_r. apply Csum_ext. intros k _.
    generalize (get C0 x i k) (K m i p) (K' n k q). intros. cplx.
Qed.

Lemma empty_axis_false m n x :
  rect m n x -> (0 < m)%nat -> (0 < n)%nat -> empty_axis x = false.
Proof.
  intros Hx Hm Hn. unfold empty_axis.
  rewrite (rect_shape0 Hx), (rect_shape1 Hx Hm).
  destruct (Nat.eqb_spec m 0); [lia|].
  destruct (Nat.eqb_spec n 0); [lia|reflexivity].
Qed.

Lemma map_ifft_fft m n x :
  rect m n x -> (0 < n)%nat -> map ifft (map fft x) = x.
Proof.
  intros Hx Hn. rewrite map_map. rewrite <- (map_id x) at 2.
  eapply map_ext_rect; [eassumption|].
  intros r Hr. apply ifft_fft. now rewrite Hr.
Qed.

(** [fft2] of a non-empty array succeeds, keeps the shape, and is undone
    by [ifft2]. *)
Lemma fft2_ok m n x :
  rect m n x -> (0 < m)%nat -> (0 < n)%nat ->
  exists F, fft2 x = Ok F /\ rect m n F /\ ifft2 F = Ok x.
Proof.
  intros Hx Hm Hn. exists (along_axis0 fft (along_axis1 fft x)).
  assert (HF : rect m n (along_axis0 fft (along_axis1 fft x))).
  { unfold along_axis1. apply (axis0_rect Kfft); try assumption.
    now apply (axis1_rect Kfft). }
  split; [|split; [exact HF|]].
  - unfold fft2. now rewrite (empty_axis_false Hx Hm Hn).
  - unfold ifft2. rewrite (empty_axis_false HF Hm Hn).
    unfold Ok. f_equal. unfold along_axis1.
    assert (E : map ifft (along_axis0 fft (map fft x)) = along_axis0 fft x).
    { transitivity (along_axis0 fft (map ifft (map fft x))).
      - pose proof (axis_commute Kfft Kifft (axis1_rect Kfft Hx) Hm Hn) as Hc.
        rewrite <- (map_ext _ _ ifft_ktf) in Hc.
        rewrite <- (map_ext _ _ ifft_ktf (map (ktf Kfft) x)) in Hc.
        exact Hc.
      - now rewrite (map_ifft_fft Hx Hn). }
    rewrite E. unfold along_axis0.
    assert (Hr : rect n m (map fft (transpose x)))
      by (apply (axis1_rect Kfft); now apply transpose_rect).
    rewrite (transpose_involutive Hr Hn Hm).
    rewrite (map_ifft_fft (transpose_rect Hx Hm) Hm).
    now apply (transpose_involutive Hx).
Qed.

(** ** Rolling back, masking *)

Section RollBack.
Context {T : Type}.

Lemma swap_halves_0 (a : list T) : swap_halves 0 a = a.
Proof. unfold swap_halves. simpl. apply app_nil_r. Qed.

(** [np.roll] by [-s] undoes [np.roll] by [s]. *)
Lemma roll_roll_opp (a : list T) s : roll (roll a s) (- s) = a.
Proof.
  destruct (Nat.eq_dec (length a) 0) as [H0|H0].
  - unfold roll at 2. rewrite H0. simpl. unfold roll. now rewrite H0.
  - rewrite (roll_swap_halves (roll a s)) by (rewrite roll_length; lia).
    rewrite roll_length. rewrite (roll_swap_halves a s) by lia.
    assert (Hn : (0 < Z.of_nat (length a))%Z) by lia.
    pose proof (Z.mod_pos_bound s (Z.of_nat (length a)) Hn) as Hb.
    destruct (Z.eq_dec (s mod Z.of_nat (length a)) 0) as [Hz|Hz].
    + rewrite Z.mod_opp_l_z by lia. rewrite Hz.
      change (Z.to_nat 0) with 0%nat. rewrite Nat.sub_0_r.
      now rewrite swap_halves_all, swap_halves_0,
                  swap_halves_all, swap_halves_0.
    + rewrite Z.mod_opp_l_nz by lia.
      replace (length a
               - Z.to_nat (Z.of_nat (length a) - s mod Z.of_nat (length a)))%nat
        with (length a
              - (length a - Z.to_nat (s mod Z.of_nat (length a))))%nat
        by lia.
      apply swap_halves_inv. lia.
Qed.

Lemma map_roll {U : Type} (f : T -> U) (a : list T) s :
  map f (roll a s) = roll (map f a) s.
Proof.
  unfold roll. rewrite length_map.
  destruct (length a =? 0)%nat; [reflexivity|].
  now rewrite map_app, skipn_map, firstn_map.
Qed.

End RollBack.

Section RollBack2.
Context {T : Type}.
Implicit Types (x : list (list T)).

Lemma roll2_roll2_opp x s0 s1 : roll2 (roll2 x s0 s1) (- s0) (- s1) = x.
Proof.
  unfold roll2. rewrite <- map_roll, roll_roll_opp, map_map.
  rewrite <- (map_id x) at 2. apply map_ext. intros r.
  apply roll_roll_opp.
Qed.

Lemma np_fftshift_rect m n x : rect m n x -> rect m n (np_fftshift x).
Proof. apply rect_roll2. Qed.

Lemma np_ifftshift_rect m n x : rect m n x -> rect m n (np_ifftshift x).
Proof. apply rect_roll2. Qed.

(** [np.fft.ifftshift] undoes [np.fft.fftshift], whatever the parity. *)
Lemma np_ifftshift_fftshift m n x :
  rect m n x -> (0 < m)%nat -> np_ifftshift (np_fftshift x) = x.
Proof.
  intros Hx Hm. pose proof (np_fftshift_rect Hx) as Hy.
  unfold np_ifftshift.
  rewrite (rect_shape0 Hy), (rect_shape1 Hy Hm).
  unfold np_fftshift. rewrite (rect_shape0 Hx), (rect_shape1 Hx Hm).
  apply roll2_roll2_opp.
Qed.

Lemma repeat_rect (c : T) m n : rect m n (repeat (repeat c n) m).
Proof.
  split; [apply repeat_length|]. rewrite Forall_forall. intros r Hr.
  apply repeat_spec in Hr. subst r. apply repeat_length.
Qed.

End RollBack2.





Lemma zip_with_tab {A B D : Type} (f : A -> B -> D) n a b :
  zip_with f (tab n a) (tab n b) = tab n (fun i => f (a i) (b i)).
Proof.
  unfold zip_with, tab. generalize (seq 0 n). intros l.
  induction l as [|i l IH]; simpl; [reflexivity|]. now rewrite IH.
Qed.

(** Masking, element by element. *)
Lemma mul_mask_tab m n (X : list (list C)) (b : nat -> nat -> bool) :
  rect m n X ->
  mul_mask X (tab m (fun i => tab n (b i)))
  = tab m (fun i => tab n (fun j =>
      Cmul (get C0 X i j) (if b i j then C1 else C0))).
Proof.
  intros HX. rewrite <- (rect_tab_get C0 HX) at 1.
  unfold mul_mask. rewrite zip_with_tab. apply tab_ext. intros i _.
  now rewrite zip_with_tab.
Qed.

Lemma mul_mask_all_true m n X :
  rect m n X -> mul_mask X (tab m (fun _ => tab n (fun _ => true))) = X.
Proof.
  intros HX. rewrite (mul_mask_tab (fun _ _ => true) HX).
  transitivity (tab m (fun i => tab n (fun j => get C0 X i j)));
    [|now apply rect_tab_get].
  apply tab_ext. intros i _. apply tab_ext. intros j _. apply Cmul_1_r.
Qed.


Lemma Rltb_true a b : a < b -> Rltb a b = true.
Proof. intros H. unfold Rltb. destruct (Rlt_dec a b); [reflexivity|lra]. Qed.

Lemma Rltb_false a b : b <= a -> Rltb a b = false.
Proof. intros H. unfold Rltb. destruct (Rlt_dec a b); [lra|reflexivity]. Qed.

(** *** [ifft2] *)

Lemma ifft2_ktf x :
  ifft2 x = if empty_axis x then Raise ValueError
            else Ok (along_axis0 (ktf Kifft) (map (ktf Kifft) x)).
Proof.
  unfold ifft2, along_axis0, along_axis1.
  destruct (empty_axis x); [reflexivity|].
  now rewrite !(map_ext _ _ ifft_ktf).
Qed.

Lemma ifft2_rect m n x :
  rect m n x -> (0 < m)%nat -> (0 < n)%nat ->
  exists y, ifft2 x = Ok y /\ rect m n y.
Proof.
  intros Hx Hm Hn. rewrite ifft2_ktf, (empty_axis_false Hx Hm Hn).
  eexists. split; [reflexivity|].
  apply axis0_rect; try assumption. now apply axis1_rect.
Qed.


(** ** The two shifts *)

Lemma odd_half n : Nat.odd n = true -> n = (2 * (n / 2) + 1)%nat.
Proof.
  intros H. apply Nat.odd_spec in H as [k Hk]. subst n.
  replace (2 * k + 1)%nat with (1 + k * 2)%nat at 2 by lia.
  rewrite Nat.div_add by lia. simpl. lia.
Qed.

Section ShiftFacts.
Context {T : Type}.
Implicit Types (a : list T).

(** Rolling an odd axis forward by half its length splits it after the
    middle element. *)
Lemma roll_half_odd a :
  Nat.odd (length a) = true ->
  roll a (Z.of_nat (length a / 2)) = swap_halves (length a / 2 + 1) a.
Proof.
  intros Hodd. pose proof (odd_half _ Hodd) as Hn.
  rewrite roll_swap_halves by lia. f_equal.
  rewrite Z.mod_small by lia. lia.
Qed.

(** Rolling it backward by half its length splits it before the middle
    element. *)
Lemma roll_neg_half_odd a :
  Nat.odd (length a) = true ->
  roll a (- Z.of_nat (length a / 2)) = swap_halves (length a / 2) a.
Proof.
  intros Hodd. pose proof (odd_half _ Hodd) as Hn.
  rewrite roll_swap_halves by lia.
  destruct (Nat.eq_dec (length a / 2) 0) as [H0|H0].
  - rewrite H0. change (- Z.of_nat 0)%Z with 0%Z. rewrite Zmod_0_l.
    change (Z.to_nat 0) with 0%nat. rewrite Nat.sub_0_r.
    apply swap_halves_all.
  - f_equal.
    assert (Hmod : ((- Z.of_nat (length a / 2)) mod Z.of_nat (length a)
                   = Z.of_nat (length a) - Z.of_nat (length a / 2))%Z).
    { symmetry. apply Z.mod_unique with (q := (-1)%Z); lia. }
    rewrite Hmod. lia.
Qed.

End ShiftFacts.

Section ShiftFacts2.
Context {T : Type}.
Implicit Types (x : list (list T)).

Lemma np_fftshift_odd m n x :
  rect m n x -> Nat.odd m = true -> Nat.odd n = true ->
  np_fftshift x = swap_halves2 (m / 2 + 1) (n / 2 + 1) x.
Proof.
  intros Hx Hm Hn. pose proof Hx as [Hlen _].
  assert (Hpos : (0 < m)%nat) by (destruct m; [discriminate|lia]).
  unfold np_fftshift, roll2, swap_halves2.
  rewrite (rect_shape0 Hx), (rect_shape1 Hx Hpos). subst m.
  rewrite roll_half_odd by assumption.
  eapply map_ext_rect.
  - apply rect_swap_halves. eassumption.
  - intros r Hr. rewrite <- Hr. apply roll_half_odd. now rewrite Hr.
Qed.

Lemma np_ifftshift_odd m n x :
  rect m n x -> Nat.odd m = true -> Nat.odd n = true ->
  np_ifftshift x = swap_halves2 (m / 2) (n / 2) x.
Proof.
  intros Hx Hm Hn. pose proof Hx as [Hlen _].
  assert (Hpos : (0 < m)%nat) by (destruct m; [discriminate|lia]).
  unfold np_ifftshift, roll2, swap_halves2.
  rewrite (rect_shape0 Hx), (rect_shape1 Hx Hpos). subst m.
  rewrite roll_neg_half_odd by assumption.
  eapply map_ext_rect.
  - apply rect_swap_halves. eassumption.
  - intros r Hr. rewrite <- Hr. apply roll_neg_half_odd. now rewrite Hr.
Qed.

End ShiftFacts2.

(** C3. On a 2-D array whose two axis lengths are odd, the centering
    step that [undersample_kspace] applies ([np.fft.fftshift]) swaps, on
    each axis, the two halves split at [length // 2 + 1]; the
    un-centering step ([np.fft.ifftshift]) swaps the halves split at
    [length // 2]; and these are the results of the hand-rolled
    [fftshift2d] with [ifft=False] and [ifft=True]. *)
Theorem C3_numpy_shifts_are_fftshift2d :
  forall (T : Type) (m n : nat) (x : list (list T)),
    rect m n x -> Nat.odd m = true -> Nat.odd n = true ->
    np_fftshift x = swap_halves2 (m / 2 + 1) (n / 2 + 1) x /\
    np_ifftshift x = swap_halves2 (m / 2) (n / 2) x /\
    fftshift2d x false = Ok (np_fftshift x) /\
    fftshift2d x true = Ok (np_ifftshift x).
Proof.
  intros T m n x Hx Hm Hn.
  rewrite (np_fftshift_odd Hx Hm Hn), (np_ifftshift_odd Hx Hm Hn).
  rewrite !(fftshift2d_odd _ Hx Hm Hn).
  rewrite !Nat.add_0_r. repeat split; reflexivity.
Qed.

Lemma rect_sample33 : rect 3 3 sample33.
Proof. split; [reflexivity|]. repeat constructor. Qed.

Lemma C3_witness :
  fftshift2d sample33 false = Ok [[9; 7; 8]; [3; 1; 2]; [6; 4; 5]]%nat /\
  fftshift2d sample33 true = Ok [[5; 6; 4]; [8; 9; 7]; [2; 3; 1]]%nat /\
  np_fftshift sample33 = swap_halves2 2 2 sample33 /\
  np_ifftshift sample33 = swap_halves2 1 1 sample33 /\
  fftshift2d sample33 false = Ok (np_fftshift sample33) /\
  fftshift2d sample33 true = Ok (np_ifftshift sample33).
Proof.
  split; [reflexivity|]. split; [reflexivity|].
  apply (@C3_numpy_shifts_are_fftshift2d nat 3 3 sample33 rect_sample33);
    reflexivity.
Defined.

(** C9. On a 2-D array whose two axis lengths are odd, [fftshift2d]
    with [ifft=False] followed by [fftshift2d] with [ifft=True] gives the
    array back. *)
Theorem C9_fftshift2d_forward_then_inverse :
  forall (T : Type) (m n : nat) (x : list (list T)),
    rect m n x -> Nat.odd m = true -> Nat.odd n = true ->
    rbind (fftshift2d x false) (fun y => fftshift2d y true) = Ok x.
Proof.
  intros T m n x Hx Hm Hn.
  pose proof (odd_half _ Hm) as Em. pose proof (odd_half _ Hn) as En.
  rewrite (fftshift2d_odd false Hx Hm Hn). cbn [rbind Ok].
  rewrite (fftshift2d_odd true (rect_swap_halves2 _ _ Hx) Hm Hn).
  unfold Ok. f_equal. rewrite !Nat.add_0_r.
  set (k0 := (m / 2 + 1)%nat). set (k1 := (n / 2 + 1)%nat).
  replace (m / 2)%nat with (m - k0)%nat by (subst k0; lia).
  replace (n / 2)%nat with (n - k1)%nat by (subst k1; lia).
  apply swap_halves2_inv; [assumption|subst k0; lia|subst k1; lia].
Qed.

Lemma C9_witness :
  rbind (fftshift2d sample33 false) (fun y => fftshift2d y true)
  = Ok sample33.
Proof.
  apply (@C9_fftshift2d_forward_then_inverse nat 3 3 sample33 rect_sample33);
    reflexivity.
Defined.

(** ** Range clamper *)

Lemma min_max_clip v : Rmax (Rmin v 1) 0 = clip v 0 1.
Proof.
  unfold clip, Rmax, Rmin.
  repeat (destruct (Rle_dec _ _)); lra.
Qed.

Lemma clamp_scale_pointwise output :
  clamp_scale output = map (map (fun v => clip v 0 1 * 255)) output.
Proof.
  unfold clamp_scale. rewrite !map_map. apply map_ext. intros r.
  rewrite !map_map. apply map_ext. intros v. now rewrite min_max_clip.
Qed.

(** C5. The range clamper ([clamp_scale], lines 79-81) is a function of
    the canvas alone and computes [clip(v, 0.0, 1.0) * 255] on every
    element; the sample 1.5 maps to 255 and the sample -0.2 maps to 0. *)
Theorem C5_clamp_scale_is_clip_times_255 :
  (forall output : list (list R),
     clamp_scale output = map (map (fun v => clip v 0 1 * 255)) output) /\
  clamp_scale [[1.5]] = [[255]] /\
  clamp_scale [[-0.2]] = [[0]].
Proof.
  split; [apply clamp_scale_pointwise|].
  split; rewrite clamp_scale_pointwise; simpl; do 2 f_equal;
    unfold clip, Rmax, Rmin; repeat (destruct (Rle_dec _ _)); lra.
Qed.

(** ** Slice normalizer *)

Lemma fold_left_Rmax_ge l a : a <= fold_left Rmax l a.
Proof.
  revert a. induction l as [|b l IH]; intros a; simpl; [lra|].
  eapply Rle_trans; [apply (Rmax_l a b)|apply IH].
Qed.

Lemma fold_left_Rmax_ub l a :
  Forall (fun v => v <= fold_left Rmax l a) l.
Proof.
  revert a. induction l as [|b l IH]; intros a; simpl; constructor.
  - eapply Rle_trans; [apply (Rmax_r a b)|apply fold_left_Rmax_ge].
  - apply IH.
Qed.

Lemma fold_left_Rmax_in l a :
  fold_left Rmax l a = a \/ In (fold_left Rmax l a) l.
Proof.
  revert a. induction l as [|b l IH]; intros a; simpl; [now left|].
  destruct (IH (Rmax a b)) as [H|H]; [|now right; right].
  rewrite H. unfold Rmax. destruct (Rle_dec a b); [right; now left|now left].
Qed.

(** [np.max] returns an element that bounds all the others. *)
Lemma amax_spec l :
  l <> [] ->
  exists mx, amax l = Ok mx /\ In mx l /\ Forall (fun v => v <= mx) l.
Proof.
  destruct l as [|a l]; [congruence|]. intros _.
  exists (fold_left Rmax l a). split; [reflexivity|]. split.
  - destruct (fold_left_Rmax_in l a) as [H|H]; [left; now rewrite H|now right].
  - constructor; [apply fold_left_Rmax_ge|apply fold_left_Rmax_ub].
Qed.

Lemma flatten3_map (f : R -> R) img :
  flatten3 (map (map (map f)) img) = map f (flatten3 img).
Proof. unfold flatten3. now rewrite <- !concat_map. Qed.

Lemma flatten2_map (f : R -> R) x :
  flatten2 (map (map f) x) = map f (flatten2 x).
Proof. unfold flatten2. now rewrite <- concat_map. Qed.


(** *** Floating-point samples *)

Lemma float32_Z (k : Z) : (Z.abs k < 2 ^ 24)%Z -> float32 (IZR k).
Proof.
  intros H. exists k, 0%Z. split; [exact H|]. split; [lia|]. simpl. ring.
Qed.

Lemma float32_0 : float32 0.
Proof. apply (float32_Z 0). reflexivity. Qed.

Lemma float32_1 : float32 1.
Proof. apply (float32_Z 1). reflexivity. Qed.

Lemma float32_2 : float32 2.
Proof. apply (float32_Z 2). reflexivity. Qed.

Lemma float32_255 : float32 255.
Proof. apply (float32_Z 255). reflexivity. Qed.

(** Exact arithmetic is a rounding. *)
Lemma exact_is_rounding : is_rounding Fin.
Proof.
  split; [|split].
  - intros x y H. exact H.
  - reflexivity.
  - intros x y H. injection H as ->. reflexivity.
Qed.

(** Between two values of the format a rounding neither overflows nor
    leaves the interval. *)
Lemma rounding_between rnd a b x :
  is_rounding rnd -> float32 a -> float32 b -> a <= x <= b ->
  exists r, rnd x = Fin r /\ a <= r <= b.
Proof.
  intros (Hmono & Hfix & _) Ha Hb [Hax Hxb].
  pose proof (Hmono _ _ Hax) as H1. pose proof (Hmono _ _ Hxb) as H2.
  rewrite (Hfix _ Ha) in H1. rewrite (Hfix _ Hb) in H2.
  destruct (rnd x) as [r| | |]; simpl in H1, H2; try contradiction.
  exists r. split; [reflexivity|]. split; assumption.
Qed.

Lemma flatten3_map_poly {A B : Type} (f : A -> B) img :
  flatten3 (map (map (map f)) img) = map f (flatten3 img).
Proof. unfold flatten3. now rewrite <- !concat_map. Qed.

(** With exact quotients [normalize_rnd] is [normalize]. *)
Lemma normalize_rnd_exact img :
  normalize_rnd Fin img
  = rbind (normalize img) (fun out => Ok (map (map (map Fin)) out)).
Proof.
  unfold normalize_rnd, normalize.
  destruct (amax (flatten3 img)) as [e|mx]; [reflexivity|].
  cbn [rbind Ok]. unfold Ok. f_equal.
  rewrite map_map. apply map_ext. intros p.
  rewrite map_map. apply map_ext. intros c.
  now rewrite map_map.
Qed.

Lemma quotient_in_unit v mx : 0 <= v <= mx -> 0 < mx -> 0 <= v / mx <= 1.
Proof.
  intros [H0 H1] Hpos. split.
  - apply Rmult_le_pos; [assumption|]. left. now apply Rinv_0_lt_compat.
  - apply Rmult_le_reg_r with mx; [assumption|].
    unfold Rdiv. rewrite Rmult_assoc, Rinv_l by lra. lra.
Qed.




(** ** Canvas compositor *)

Lemma zeros_rect r c : rect r c (zeros r c).
Proof.
  unfold zeros. split; [apply repeat_length|].
  rewrite Forall_forall. intros x Hx. apply repeat_spec in Hx. subst x.
  apply repeat_length.
Qed.

Lemma get_zeros r c i j : get 0 (zeros r c) i j = 0.
Proof.
  unfold get, zeros.
  destruct (Nat.lt_ge_cases i r) as [Hi|Hi].
  - rewrite (nth_indep _ [] (repeat 0 c)) by now rewrite repeat_length.
    rewrite nth_repeat_default. apply nth_repeat_default.
  - rewrite (nth_overflow (repeat (repeat 0 c) r))
      by now rewrite repeat_length.
    now destruct j.
Qed.

Lemma slice_bound_inside len i :
  (0 <= i <= Z.of_nat len)%Z -> slice_bound len i = Z.to_nat i.
Proof.
  intros H. unfold slice_bound.
  destruct (Z.ltb_spec i 0); [lia|]. f_equal. lia.
Qed.

Lemma hborder_bounds dim :
  (dim <= OUT_RESOLUTION)%nat ->
  (0 <= hborder dim)%Z /\
  (hborder dim + Z.of_nat dim <= Z.of_nat OUT_RESOLUTION)%Z.
Proof.
  intros H. unfold hborder.
  set (d := (Z.of_nat OUT_RESOLUTION - Z.of_nat dim)%Z).
  assert (Hd : (0 <= d)%Z) by (subst d; lia).
  pose proof (Z.div_pos d 2 Hd ltac:(lia)).
  pose proof (Z.mul_div_le d 2 ltac:(lia)).
  subst d. lia.
Qed.

(** What [compose] builds, element by element. *)
Lemma compose_spec n0 n1 slice :
  rect n0 n1 slice ->
  (0 < n0 <= OUT_RESOLUTION)%nat -> (n1 <= OUT_RESOLUTION)%nat ->
  let b0 := Z.to_nat (hborder n0) in
  let b1 := Z.to_nat (hborder n1) in
  compose (n0, n1) slice
  = Ok (tab OUT_RESOLUTION (fun i => tab OUT_RESOLUTION (fun j =>
          if ((b0 <=? i) && (i <? b0 + n0) && (b1 <=? j) && (j <? b1 + n1))%nat
          then get 0 slice (i - b0) (j - b1) else 0))).
Proof.
  intros Hs H0 H1 b0 b1.
  destruct (hborder_bounds (proj2 H0)) as [Hb0 Hc0].
  destruct (hborder_bounds H1) as [Hb1 Hc1].
  assert (HR : (0 < OUT_RESOLUTION)%nat) by (unfold OUT_RESOLUTION; lia).
  unfold compose, set_block. cbn [fst snd].
  rewrite (rect_shape0 (zeros_rect _ _)).
  rewrite (rect_shape1 (zeros_rect _ _) HR).
  rewrite (rect_shape0 Hs), (rect_shape1 Hs (proj1 H0)).
  rewrite !slice_bound_inside by lia.
  fold b0 b1.
  replace (Z.to_nat (hborder n0 + Z.of_nat n0)) with (b0 + n0)%nat
    by (subst b0; lia).
  replace (Z.to_nat (hborder n1 + Z.of_nat n1)) with (b1 + n1)%nat
    by (subst b1; lia).
  replace (b0 + n0 - b0)%nat with n0 by lia.
  replace (b1 + n1 - b1)%nat with n1 by lia.
  unfold fits. rewrite !Nat.eqb_refl. cbn [orb andb].
  unfold Ok. f_equal.
  apply tab_ext. intros i Hi. apply tab_ext. intros j Hj.
  rewrite get_zeros.
  destruct ((b0 <=? i) && (i <? b0 + n0) && (b1 <=? j) && (j <? b1 + n1))%nat
    eqn:Hin; [|reflexivity].
  apply andb_prop in Hin as [Hin Hj2]. apply andb_prop in Hin as [Hin Hj1].
  apply andb_prop in Hin as [Hi1 Hi2].
  apply Nat.leb_le in Hi1, Hj1. apply Nat.ltb_lt in Hi2, Hj2.
  f_equal.
  - destruct (Nat.eqb_spec n0 1); [lia|reflexivity].
  - destruct (Nat.eqb_spec n1 1); [lia|reflexivity].
Qed.

(** A slice wider than the canvas does not fit: the block selected on
    the canvas is shorter than the slice and the assignment is
    rejected. *)
Lemma compose_too_large n0 n1 slice :
  rect n0 n1 slice -> (OUT_RESOLUTION < n0)%nat ->
  compose (n0, n1) slice = Raise ValueError.
Proof.
  intros Hs H0.
  assert (HR : (0 < OUT_RESOLUTION)%nat) by (unfold OUT_RESOLUTION; lia).
  unfold compose, set_block. cbn [fst snd].
  rewrite (rect_shape0 (zeros_rect _ _)), (rect_shape0 Hs).
  set (h0 := hborder n0).
  assert (Hh : (- Z.of_nat n0 < 2 * h0 < 0)%Z).
  { subst h0. unfold hborder.
    set (d := (Z.of_nat OUT_RESOLUTION - Z.of_nat n0)%Z).
    assert (Hd : (d < 0)%Z) by (subst d; lia).
    pose proof (Z.mul_div_le d 2 ltac:(lia)).
    pose proof (Z.mul_succ_div_gt d 2 ltac:(lia)).
    assert (2 < Z.of_nat OUT_RESOLUTION)%Z by (unfold OUT_RESOLUTION; lia).
    subst d. lia. }
  assert (Hf : fits (slice_bound OUT_RESOLUTION (h0 + Z.of_nat n0)
                     - slice_bound OUT_RESOLUTION h0) n0 = false).
  { unfold fits, slice_bound.
    destruct (Z.ltb_spec h0 0); [|lia].
    destruct (Z.ltb_spec (h0 + Z.of_nat n0) 0); [lia|].
    destruct (Nat.eqb_spec n0 1) as [E1|E1]; [lia|].
    rewrite orb_false_r. apply Nat.eqb_neq. lia. }
  now rewrite Hf.
Qed.

(** C4. For a slice whose dimensions are at most the output resolution,
    the border on each axis is [(OUT_RESOLUTION - dim) // 2] (77 for a
    dimension of 101 and resolution 256); the canvas is
    [OUT_RESOLUTION] by [OUT_RESOLUTION]; the slice occupies exactly the
    block [border, border + dim) of both axes; and every other element
    of the canvas is zero. *)
Theorem C4_compose_centres_slice :
  forall (n0 n1 : nat) (slice : list (list R)),
    rect n0 n1 slice ->
    (0 < n0 <= OUT_RESOLUTION)%nat -> (n1 <= OUT_RESOLUTION)%nat ->
    hborder 101 = 77%Z /\
    (0 <= hborder n0)%Z /\ (0 <= hborder n1)%Z /\
    exists canvas b0 b1,
      Z.of_nat b0 = ((256 - Z.of_nat n0) / 2)%Z /\
      Z.of_nat b1 = ((256 - Z.of_nat n1) / 2)%Z /\
      compose (n0, n1) slice = Ok canvas /\
      rect OUT_RESOLUTION OUT_RESOLUTION canvas /\
      (forall a b, (a < n0)%nat -> (b < n1)%nat ->
         get 0 canvas (b0 + a) (b1 + b) = get 0 slice a b) /\
      (forall i j, (i < OUT_RESOLUTION)%nat -> (j < OUT_RESOLUTION)%nat ->
         ~ ((b0 <= i < b0 + n0)%nat /\ (b1 <= j < b1 + n1)%nat) ->
         get 0 canvas i j = 0).
Proof.
  intros n0 n1 slice Hs H0 H1.
  destruct (hborder_bounds (proj2 H0)) as [Hb0 Hc0].
  destruct (hborder_bounds H1) as [Hb1 Hc1].
  split; [reflexivity|]. split; [assumption|]. split; [assumption|].
  pose proof (compose_spec Hs H0 H1) as Hc. cbv zeta in Hc.
  set (b0 := Z.to_nat (hborder n0)) in *.
  set (b1 := Z.to_nat (hborder n1)) in *.
  eexists _, b0, b1.
  split; [subst b0; rewrite Z2Nat.id by assumption; reflexivity|].
  split; [subst b1; rewrite Z2Nat.id by assumption; reflexivity|].
  split; [exact Hc|]. split; [apply rect_tab|].
  assert (HR : Z.of_nat OUT_RESOLUTION = 256%Z) by reflexivity.
  split.
  - intros a b Ha Hb. rewrite get_tab by (subst b0 b1; lia).
    replace ((b0 <=? b0 + a) && (b0 + a <? b0 + n0) &&
             (b1 <=? b1 + b) && (b1 + b <? b1 + n1))%nat with true.
    + f_equal; lia.
    + symmetry. rewrite !andb_true_iff.
      repeat split; (apply Nat.leb_le || apply Nat.ltb_lt); lia.
  - intros i j Hi Hj Hout. rewrite get_tab by assumption.
    destruct ((b0 <=? i) && (i <? b0 + n0) && (b1 <=? j) && (j <? b1 + n1))%nat
      eqn:Hin; [|reflexivity].
    exfalso. apply Hout.
    apply andb_prop in Hin as [Hin Hj2]. apply andb_prop in Hin as [Hin Hj1].
    apply andb_prop in Hin as [Hi1 Hi2].
    apply Nat.leb_le in Hi1, Hj1. apply Nat.ltb_lt in Hi2, Hj2. lia.
Qed.

Lemma rect_slice101 : rect 101 101 slice101.
Proof. apply repeat_rect. Qed.

Lemma C4_witness :
  hborder 101 = 77%Z /\
  (0 <= hborder 101)%Z /\ (0 <= hborder 101)%Z /\
  exists canvas b0 b1,
    Z.of_nat b0 = ((256 - Z.of_nat 101) / 2)%Z /\
    Z.of_nat b1 = ((256 - Z.of_nat 101) / 2)%Z /\
    compose (101, 101)%nat slice101 = Ok canvas /\
    rect OUT_RESOLUTION OUT_RESOLUTION canvas /\
    (forall a b, (a < 101)%nat -> (b < 101)%nat ->
       get 0 canvas (b0 + a) (b1 + b) = get 0 slice101 a b) /\
    (forall i j, (i < OUT_RESOLUTION)%nat -> (j < OUT_RESOLUTION)%nat ->
       ~ ((b0 <= i < b0 + 101)%nat /\ (b1 <= j < b1 + 101)%nat) ->
       get 0 canvas i j = 0).
Proof.
  apply (@C4_compose_centres_slice 101 101 slice101 rect_slice101);
    unfold OUT_RESOLUTION; lia.
Defined.

(** ** Spectral masker *)

Lemma RtoC_rect m n (slice : list (list R)) :
  rect m n slice -> rect m n (map (map RtoC) slice).
Proof. apply rect_map_rows. intros r. apply length_map. Qed.

(** The masker, once the transform of the slice is known. *)
Lemma undersample_unfold m n slice mf w F :
  fft2 (map (map RtoC) slice) = Ok F -> rect m n F -> (0 < m)%nat ->
  undersample_kspace slice mf w
  = (rbind (ifft2 (np_ifftshift
                     (mul_mask (np_fftshift F) (mask_of mf w m n))))
           (fun y => Ok (map (map Cabs) y)),
     advance m n w).
Proof.
  intros HF Hr Hm. pose proof (np_fftshift_rect Hr) as Hs.
  unfold undersample_kspace, bind, lift. rewrite HF.
  unfold Ok at 1. cbv beta iota zeta.
  rewrite (rect_shape0 Hs), (rect_shape1 Hs Hm).
  unfold random_rand, Ok at 1. cbv beta iota zeta.
  fold (advance m n w).
  replace (map (map (fun u => Rltb u mf)) _) with (mask_of mf w m n).
  2:{ unfold mask_of. rewrite map_tab. apply tab_ext. intros i _.
      now rewrite map_tab. }
  destruct (ifft2 _) as [e|y]; reflexivity.
Qed.

(** When every draw falls below the keep fraction, nothing is removed. *)
Lemma undersample_all_kept m n slice mf w :
  rect m n slice -> (0 < m)%nat -> (0 < n)%nat ->
  (forall k, draws (w_rng w) k < mf) ->
  undersample_kspace slice mf w
  = (Ok (map (map Rabs) slice), advance m n w).
Proof.
  intros Hx Hm Hn Hd.
  destruct (fft2_ok (RtoC_rect Hx) Hm Hn) as (F & HF & Hr & Hinv).
  rewrite (undersample_unfold slice mf w HF Hr Hm).
  replace (mask_of mf w m n) with (tab m (fun _ => tab n (fun _ => true))).
  2:{ unfold mask_of. apply tab_ext. intros i _. apply tab_ext. intros j _.
      symmetry. apply Rltb_true, Hd. }
  rewrite (mul_mask_all_true (np_fftshift_rect Hr)).
  rewrite (np_ifftshift_fftshift Hr Hm), Hinv. cbn [rbind Ok].
  do 2 f_equal. rewrite map_map. apply map_ext. intros r.
  rewrite map_map. apply map_ext. intros v. apply Cabs_RtoC.
Qed.


(** Whatever the mask, a non-empty slice comes back with its shape. *)
Lemma undersample_total m n slice mf w :
  rect m n slice -> (0 < m)%nat -> (0 < n)%nat ->
  exists out,
    undersample_kspace slice mf w = (Ok out, advance m n w) /\
    rect m n out.
Proof.
  intros Hx Hm Hn.
  destruct (fft2_ok (RtoC_rect Hx) Hm Hn) as (F & HF & Hr & _).
  rewrite (undersample_unfold slice mf w HF Hr Hm).
  assert (Hk : rect m n (np_ifftshift
                 (mul_mask (np_fftshift F) (mask_of mf w m n)))).
  { apply np_ifftshift_rect. unfold mask_of.
    rewrite (mul_mask_tab _ (np_fftshift_rect Hr)). apply rect_tab. }
  destruct (ifft2_rect Hk Hm Hn) as (y & Hy & Hyr). rewrite Hy.
  exists (map (map Cabs) y). split; [reflexivity|].
  revert Hyr. apply rect_map_rows. intros r. apply length_map.
Qed.

Lemma fftshift2d_even {T : Type} m n (x : list (list T)) ifft :
  rect m n x -> (0 < m)%nat ->
  Nat.even m = true \/ Nat.even n = true ->
  fftshift2d x ifft = Raise AssertionError.
Proof.
  intros Hx Hm He. unfold fftshift2d.
  rewrite (rect_shape0 Hx), (rect_shape1 Hx Hm).
  rewrite <- !Nat.negb_even.
  destruct He as [-> | ->]; [reflexivity|].
  now rewrite andb_false_r.
Qed.

Lemma rect_slice22 : rect 2 2 slice22.
Proof. split; [reflexivity|]. repeat constructor. Qed.



(** C1, as stated, fails: on a 2 by 2 slice (both axis lengths even)
    [undersample_kspace] raises nothing and returns an array; with
    every draw below the keep fraction it returns the slice itself. *)
Lemma C1_counterexample :
  undersample_kspace slice22 (1 / 2) w0
  = (Ok [[1; 2]; [3; 4]], advance 2 2 w0).
Proof.
  rewrite (@undersample_all_kept 2 2 slice22 (1 / 2) w0 rect_slice22);
    try lia.
  - unfold slice22. simpl. rewrite !Rabs_pos_eq by lra. reflexivity.
  - intros k. simpl. lra.
Qed.

(** C1, amended. [undersample_kspace] checks no shape: for every
    non-empty 2-D slice, of even or odd axis lengths, it returns an array
    of the shape of the slice. The check on parity lives in
    [fftshift2d], which [undersample_kspace] does not call: there an
    even axis length fails the assertion. *)
Theorem C1_undersample_accepts_even_shapes :
  forall m n : nat,
    (0 < m)%nat -> (0 < n)%nat ->
    (forall (slice : list (list R)) (mask_fraction : R) (w : world),
       rect m n slice ->
       exists out,
         undersample_kspace slice mask_fraction w = (Ok out, advance m n w) /\
         rect m n out) /\
    (forall (T : Type) (x : list (list T)) (ifft : bool),
       rect m n x ->
       Nat.even m = true \/ Nat.even n = true ->
       fftshift2d x ifft = Raise AssertionError).
Proof.
  intros m n Hm Hn. split.
  - intros slice mf w Hx. now apply undersample_total.
  - intros T x ifft Hx He. now apply (fftshift2d_even ifft Hx).
Qed.

Lemma C1_witness :
  (exists out,
     undersample_kspace slice22 (1 / 2) w0 = (Ok out, advance 2 2 w0) /\
     rect 2 2 out) /\
  fftshift2d slice22 false = Raise AssertionError.
Proof.
  destruct (@C1_undersample_accepts_even_shapes 2 2) as [Hu Hf]; [lia|lia|].
  split.
  - apply Hu. exact rect_slice22.
  - apply Hf; [exact rect_slice22|left; reflexivity].
Defined.






(** ** The loop over depth indices *)

Lemma world_eta w : mkWorld (w_rng w) (w_written w) = w.
Proof. now destruct w. Qed.

Lemma bind_assoc {A B D : Type} (m : M A) (f : A -> M B) (k : B -> M D) w :
  bind (bind m f) k w = bind m (fun a => bind (f a) k) w.
Proof.
  unfold bind. destruct (m w) as [[e|a] w1]; [reflexivity|].
  destruct (f a w1) as [[e|b] w2]; reflexivity.
Qed.

Lemma bind_ok {A B : Type} (m : M A) (k : A -> M B) w a w1 :
  m w = (Ok a, w1) -> bind m k w = k a w1.
Proof. intros H. unfold bind. now rewrite H. Qed.

Arguments bind_ok {A B m} k {w a w1} _.

Lemma bind_raise {A B : Type} (m : M A) (k : A -> M B) w e w1 :
  m w = (Raise e, w1) -> bind m k w = (Raise e, w1).
Proof. intros H. unfold bind. now rewrite H. Qed.

(** The loop body is the raster followed by the guarded save. *)
Lemma genpng_slice_split u name shape img s w :
  genpng_slice u name shape img s w
  = bind (slice_raster u shape img s) (save_if_bright name s) w.
Proof.
  unfold genpng_slice, slice_raster, save_if_bright, bind, lift.
  destruct (take_slice (snd shape) img s) as [e|sl]; [reflexivity|].
  destruct ((if u then undersample_kspace sl (1 / 2) else ret sl) w)
    as [[e|sl'] w2]; [reflexivity|].
  destruct (compose (fst shape) sl') as [e|o]; reflexivity.
Qed.

Lemma rect_flatten2_nonempty {A : Type} m n (x : list (list A)) :
  rect m n x -> (0 < m)%nat -> (0 < n)%nat -> flatten2 x <> [].
Proof.
  intros [Hm Hr] H0 H1. destruct x as [|r x]; simpl in *; [lia|].
  inversion Hr as [|? ? Hlen _]; subst.
  destruct r; simpl in *; [lia|discriminate].
Qed.

Lemma clamp_scale_rect m n x : rect m n x -> rect m n (clamp_scale x).
Proof.
  intros H. unfold clamp_scale.
  repeat (apply rect_map_rows; [intros r; apply length_map|]).
  exact H.
Qed.

Lemma take_slice_rect n0 n1 n2 img s :
  vol_rect n0 n1 n2 img -> rect n0 n1 (map (map (fun c => nth s c 0)) img).
Proof.
  intros [H0 Hp]. split; [now rewrite length_map|].
  rewrite Forall_forall in *. intros r Hr.
  apply in_map_iff in Hr as (p & <- & Hin). rewrite length_map.
  now apply Hp.
Qed.

(** The masker looks at the generator only, and leaves the files alone. *)
Lemma undersample_files m n slice mf g :
  rect m n slice -> (0 < m)%nat -> (0 < n)%nat ->
  exists out,
    rect m n out /\
    forall files,
      undersample_kspace slice mf (mkWorld g files)
      = (Ok out, mkWorld (rng_after true m n 1 g) files).
Proof.
  intros Hx Hm Hn.
  destruct (@undersample_total m n slice mf (mkWorld g []) Hx Hm Hn)
    as (out & Ho & Hr).
  exists out. split; [exact Hr|]. intros files.
  destruct (fft2_ok (RtoC_rect Hx) Hm Hn) as (F & HF & HFr & _).
  rewrite (undersample_unfold slice mf (mkWorld g []) HF HFr Hm) in Ho.
  rewrite (undersample_unfold slice mf (mkWorld g files) HF HFr Hm).
  injection Ho as Ho.
  change (mask_of mf (mkWorld g files) m n) with (mask_of mf (mkWorld g []) m n).
  rewrite Ho. unfold advance, rng_after. cbn [w_rng w_written].
  now rewrite Nat.mul_1_l.
Qed.

(** The raster of one depth index. *)
Lemma slice_raster_ok u n0 n1 n2 img s g :
  vol_rect n0 n1 n2 img ->
  (0 < n0 <= OUT_RESOLUTION)%nat -> (0 < n1 <= OUT_RESOLUTION)%nat ->
  (s < n2)%nat ->
  exists output,
    rect OUT_RESOLUTION OUT_RESOLUTION output /\
    forall files,
      slice_raster u (n0, n1, n2) img s (mkWorld g files)
      = (Ok output, mkWorld (rng_after u n0 n1 1 g) files).
Proof.
  intros Hv H0 H1 Hs.
  pose proof (@take_slice_rect n0 n1 n2 img s Hv) as Hsl.
  assert (Ht : take_slice n2 img s = Ok (map (map (fun c => nth s c 0)) img)).
  { unfold take_slice. destruct (Nat.ltb_spec s n2); [reflexivity|lia]. }
  set (sl := map (map (fun c => nth s c 0)) img) in *.
  assert (Hm : exists sl',
             rect n0 n1 sl' /\
             forall files,
               (if u then undersample_kspace sl (1 / 2) else ret sl)
                 (mkWorld g files)
               = (Ok sl', mkWorld (rng_after u n0 n1 1 g) files)).
  { destruct u.
    - apply undersample_files; [assumption|lia|lia].
    - exists sl. split; [assumption|]. intros files. reflexivity. }
  destruct Hm as (sl' & Hr' & Hrun).
  pose proof (compose_spec Hr' H0 (proj2 H1)) as Hc. cbv zeta in Hc.
  eexists. split.
  2:{ intros files. unfold slice_raster. cbn [fst snd].
      erewrite bind_ok by (unfold lift; rewrite Ht; reflexivity).
      rewrite (bind_ok _ (Hrun files)).
      erewrite bind_ok by (unfold lift; rewrite Hc; reflexivity).
      reflexivity. }
  apply clamp_scale_rect, rect_tab.
Qed.

Lemma rng_after_0 u m n g : rng_after u m n 0 g = g.
Proof.
  unfold rng_after. destruct u; [|reflexivity].
  destruct g as [d p]. cbn [draws pos]. f_equal. lia.
Qed.

Lemma rng_after_S u m n k g :
  rng_after u m n (S k) g = rng_after u m n k (rng_after u m n 1 g).
Proof.
  unfold rng_after. destruct u; [|reflexivity].
  cbn [draws pos]. f_equal. lia.
Qed.

(** What one depth index does to the world. *)
Lemma genpng_slice_ok u name n0 n1 n2 img s g files :
  vol_rect n0 n1 n2 img ->
  (0 < n0 <= OUT_RESOLUTION)%nat -> (0 < n1 <= OUT_RESOLUTION)%nat ->
  (s < n2)%nat ->
  (exists output mx,
     raster_of u (n0, n1, n2) img s g = Ok output /\
     amax (flatten2 output) = Ok mx /\
     file_of u name (n0, n1, n2) img s g
     = if Rltb 1 mx then [(outname name s, output)] else []) /\
  genpng_slice u name (n0, n1, n2) img s (mkWorld g files)
  = (Ok tt, mkWorld (rng_after u n0 n1 1 g)
                    (files ++ file_of u name (n0, n1, n2) img s g)).
Proof.
  intros Hv H0 H1 Hs.
  destruct (@slice_raster_ok u n0 n1 n2 img s g Hv H0 H1 Hs)
    as (output & Hr & Hrun).
  assert (HR : (0 < OUT_RESOLUTION)%nat) by (unfold OUT_RESOLUTION; lia).
  destruct (amax_spec (rect_flatten2_nonempty Hr HR HR)) as (mx & Hmx & _).
  assert (Hro : raster_of u (n0, n1, n2) img s g = Ok output)
    by (unfold raster_of; now rewrite Hrun).
  assert (Hf : file_of u name (n0, n1, n2) img s g
               = if Rltb 1 mx then [(outname name s, output)] else []).
  { unfold file_of. rewrite Hro. unfold Ok. now rewrite Hmx. }
  split; [now exists output, mx|].
  rewrite genpng_slice_split, (bind_ok _ (Hrun files)).
  unfold save_if_bright.
  erewrite bind_ok by (unfold lift; rewrite Hmx; reflexivity).
  rewrite Hf. destruct (Rltb 1 mx).
  - reflexivity.
  - unfold ret. now rewrite app_nil_r.
Qed.

Lemma flat_map_ext_seq {B : Type} (f g : nat -> list B) a k :
  (forall s, (a <= s < a + k)%nat -> f s = g s) ->
  flat_map f (seq a k) = flat_map g (seq a k).
Proof.
  intros H. rewrite !flat_map_concat_map. f_equal.
  apply map_ext_in. intros s Hs. apply in_seq in Hs. now apply H.
Qed.

(** The loop over a window that fits the depth of the volume. *)
Lemma genpng_loop_ok u name n0 n1 n2 img :
  vol_rect n0 n1 n2 img ->
  (0 < n0 <= OUT_RESOLUTION)%nat -> (0 < n1 <= OUT_RESOLUTION)%nat ->
  forall k a g files,
    (a + k <= n2)%nat ->
    for_each (seq a k) (genpng_slice u name (n0, n1, n2) img)
             (mkWorld g files)
    = (Ok tt,
       mkWorld (rng_after u n0 n1 k g)
               (files ++ flat_map (fun s =>
                  file_of u name (n0, n1, n2) img s
                          (rng_after u n0 n1 (s - a) g)) (seq a k))).
Proof.
  intros Hv H0 H1. induction k as [|k IH]; intros a g files Hk.
  - simpl. unfold ret. now rewrite rng_after_0, app_nil_r.
  - cbn [seq for_each flat_map].
    destruct (@genpng_slice_ok u name n0 n1 n2 img a g files Hv H0 H1)
      as [_ Hb]; [lia|].
    rewrite (bind_ok _ Hb), IH by lia.
    rewrite Nat.sub_diag, rng_after_0, <- rng_after_S, <- app_assoc.
    rewrite (flat_map_ext_seq
               (fun s => file_of u name (n0, n1, n2) img s
                           (rng_after u n0 n1 (s - S a) (rng_after u n0 n1 1 g)))
               (fun s => file_of u name (n0, n1, n2) img s
                           (rng_after u n0 n1 (s - a) g))); [reflexivity|].
    intros s Hin.
    replace (s - a)%nat with (S (s - S a)) by lia.
    now rewrite (rng_after_S u n0 n1 (s - S a) g).
Qed.

(** When the window runs past the depth of the volume, the loop stops
    with an [IndexError]. *)
Lemma genpng_loop_shallow u name n0 n1 n2 img :
  vol_rect n0 n1 n2 img ->
  (0 < n0 <= OUT_RESOLUTION)%nat -> (0 < n1 <= OUT_RESOLUTION)%nat ->
  forall k a w,
    (0 < k)%nat -> (n2 < a + k)%nat ->
    fst (for_each (seq a k) (genpng_slice u name (n0, n1, n2) img) w)
    = Raise IndexError.
Proof.
  intros Hv H0 H1. induction k as [|k IH]; intros a w Hpos Hk; [lia|].
  - cbn [seq for_each]. destruct (Nat.lt_ge_cases a n2) as [Ha|Ha].
    + destruct w as [g files].
      destruct (@genpng_slice_ok u name n0 n1 n2 img a g files Hv H0 H1 Ha)
        as [_ Hb].
      rewrite (bind_ok _ Hb). apply IH; lia.
    + erewrite bind_raise; [reflexivity|].
      unfold genpng_slice. cbn [snd]. erewrite bind_raise; [reflexivity|].
      unfold lift, take_slice.
      destruct (Nat.ltb_spec a n2); [lia|reflexivity].
Qed.

(** *** The whole volume *)

Lemma vol_rect_nonempty n0 n1 n2 img :
  vol_rect n0 n1 n2 img ->
  (0 < n0)%nat -> (0 < n1)%nat -> (0 < n2)%nat -> flatten3 img <> [].
Proof.
  intros [Hl Hp] H0 H1 H2. destruct img as [|p img]; simpl in *; [lia|].
  inversion Hp as [|? ? [Hlp Hc] _]; subst.
  destruct p as [|c p]; simpl in *; [lia|].
  inversion Hc as [|? ? Hlc _]; subst.
  destruct c; simpl in *; [lia|]. unfold flatten3. simpl. discriminate.
Qed.

Lemma vol_rect_map (f : R -> R) n0 n1 n2 img :
  vol_rect n0 n1 n2 img -> vol_rect n0 n1 n2 (map (map (map f)) img).
Proof.
  intros [Hl Hp]. split; [now rewrite length_map|].
  rewrite Forall_forall in *. intros p' Hin.
  apply in_map_iff in Hin as (p & <- & Hin).
  destruct (Hp p Hin) as [Hlp Hc]. split; [now rewrite length_map|].
  rewrite Forall_forall in *. intros c' Hin'.
  apply in_map_iff in Hin' as (c & <- & Hin'). rewrite length_map.
  now apply Hc.
Qed.

Lemma normalize_ok n0 n1 n2 img :
  vol_rect n0 n1 n2 img ->
  (0 < n0)%nat -> (0 < n1)%nat -> (0 < n2)%nat ->
  exists img', normalize img = Ok img' /\ vol_rect n0 n1 n2 img'.
Proof.
  intros Hv H0 H1 H2.
  destruct (amax_spec (vol_rect_nonempty Hv H0 H1 H2)) as (mx & Hmx & _).
  exists (map (map (map (fun v => v / mx))) img). split.
  - unfold normalize. now rewrite Hmx.
  - now apply vol_rect_map.
Qed.

Lemma window_indices s :
  In s (seq slice_min (slice_max - slice_min)) <-> (25 <= s < 125)%nat.
Proof. rewrite in_seq. unfold slice_min, slice_max. lia. Qed.

Lemma fmt_03d_width s : (s < 1000)%nat -> String.length (fmt_03d s) = 3%nat.
Proof.
  intros Hs.
  assert (H : forallb (fun s => (String.length (fmt_03d s) =? 3)%nat)
                      (seq 0 1000) = true) by (vm_compute; reflexivity).
  rewrite forallb_forall in H. apply Nat.eqb_eq, H, in_seq. lia.
Qed.

(** A volume whose depth does not cover the window: the run stops with
    an [IndexError]. *)
Lemma genpng_volume_shallow u name v w :
  nii_wf v ->
  (0 < dim0 v <= OUT_RESOLUTION)%nat -> (0 < dim1 v <= OUT_RESOLUTION)%nat ->
  (0 < dim2 v < slice_max)%nat ->
  fst (genpng_volume u name v w) = Raise IndexError.
Proof.
  destruct v as [[[n0 n1] n2] data]. unfold nii_wf, dim0, dim1, dim2.
  cbn [nii_shape nii_fdata fst snd]. intros Hv H0 H1 H2.
  destruct (normalize_ok Hv) as (img & Hn & Hi); try lia.
  unfold genpng_volume. cbn [nii_shape nii_fdata].
  erewrite bind_ok by (unfold lift; rewrite Hn; reflexivity).
  apply genpng_loop_shallow; try assumption;
    unfold slice_min, slice_max in *; lia.
Qed.

Lemma shallow_wf : nii_wf shallow.
Proof.
  split; [reflexivity|]. repeat constructor.
Qed.

(** C2, as stated, fails: a volume of depth 100 is a well-formed input,
    and on it the loop reaches depth index 100 and raises an
    [IndexError]; the indices 100 to 124 are never processed. *)
Lemma C2_counterexample :
  fst (genpng_volume false "IXI002-Guys-0828-T1" shallow w0)
  = Raise IndexError.
Proof.
  apply genpng_volume_shallow.
  - exact shallow_wf.
  - unfold dim0, shallow, OUT_RESOLUTION. simpl. lia.
  - unfold dim1, shallow, OUT_RESOLUTION. simpl. lia.
  - unfold dim2, shallow, slice_max. simpl. lia.
Qed.

(** C2, amended. For every input volume whose depth is at least 125 and
    whose first two dimensions are between 1 and the output resolution,
    the depth indices processed are exactly those of [25, 125), in
    order; the run raises nothing; and depth index [s] adds the file
    [<name>_<s on 3 digits>.png], holding the clamped and scaled canvas,
    if the maximum of that canvas exceeds 1.0, and adds nothing
    otherwise. *)
Theorem C2_depth_window_and_blank_guard :
  forall (u : bool) (name : string) (v : nii) (w : world),
    nii_wf v ->
    (0 < dim0 v <= OUT_RESOLUTION)%nat ->
    (0 < dim1 v <= OUT_RESOLUTION)%nat ->
    (slice_max <= dim2 v)%nat ->
    exists img,
      normalize (nii_fdata v) = Ok img /\
      (forall s, In s (seq slice_min (slice_max - slice_min))
                 <-> (25 <= s < 125)%nat) /\
      (forall s g, (25 <= s < 125)%nat ->
         exists output mx,
           raster_of u (nii_shape v) img s g = Ok output /\
           amax (flatten2 output) = Ok mx /\
           (1 < mx ->
            file_of u name (nii_shape v) img s g
            = [((name ++ "_" ++ fmt_03d s ++ ".png")%string, output)]) /\
           (mx <= 1 -> file_of u name (nii_shape v) img s g = []) /\
           String.length (fmt_03d s) = 3%nat) /\
      genpng_volume u name v w
      = (Ok tt,
         mkWorld
           (rng_after u (dim0 v) (dim1 v) 100 (w_rng w))
           (w_written w ++
            flat_map (fun s =>
              file_of u name (nii_shape v) img s
                      (rng_after u (dim0 v) (dim1 v) (s - 25) (w_rng w)))
              (seq 25 100))).
Proof.
  intros u name v w. destruct v as [[[n0 n1] n2] data].
  unfold nii_wf, dim0, dim1, dim2. cbn [nii_shape nii_fdata fst snd].
  intros Hv H0 H1 H2.
  assert (Hd : (125 <= n2)%nat) by exact H2.
  destruct (normalize_ok Hv) as (img & Hn & Hi); try lia.
  exists img. split; [exact Hn|]. split; [apply window_indices|]. split.
  - intros s g Hs.
    destruct (@genpng_slice_ok u name n0 n1 n2 img s g [] Hi H0 H1)
      as [(output & mx & Hr & Hmx & Hf) _]; [lia|].
    exists output, mx. split; [exact Hr|]. split; [exact Hmx|].
    rewrite Hf. unfold outname. split; [|split].
    + intros Hlt. now rewrite Rltb_true.
    + intros Hle. now rewrite Rltb_false.
    + apply fmt_03d_width. lia.
  - unfold genpng_volume. cbn [nii_shape nii_fdata].
    erewrite bind_ok by (unfold lift; rewrite Hn; reflexivity).
    rewrite <- (world_eta w) at 1.
    change (slice_max - slice_min)%nat with 100%nat.
    change slice_min with 25%nat.
    now rewrite (genpng_loop_ok u name Hi H0 H1) by lia.
Qed.

Lemma column150_wf : nii_wf column150.
Proof.
  split; [reflexivity|]. repeat constructor.
Qed.

Lemma C2_witness :
  exists img,
    normalize (nii_fdata column150) = Ok img /\
    (forall s, In s (seq slice_min (slice_max - slice_min))
               <-> (25 <= s < 125)%nat) /\
    (forall s g, (25 <= s < 125)%nat ->
       exists output mx,
         raster_of true (nii_shape column150) img s g = Ok output /\
         amax (flatten2 output) = Ok mx /\
         (1 < mx ->
          file_of true "IXI" (nii_shape column150) img s g
          = [(("IXI" ++ "_" ++ fmt_03d s ++ ".png")%string, output)]) /\
         (mx <= 1 -> file_of true "IXI" (nii_shape column150) img s g = []) /\
         String.length (fmt_03d s) = 3%nat) /\
    genpng_volume true "IXI" column150 w0
    = (Ok tt,
       mkWorld
         (rng_after true (dim0 column150) (dim1 column150) 100 (w_rng w0))
         (w_written w0 ++
          flat_map (fun s =>
            file_of true "IXI" (nii_shape column150) img s
                    (rng_after true (dim0 column150) (dim1 column150)
                               (s - 25) (w_rng w0)))
            (seq 25 100))).
Proof.
  apply (@C2_depth_window_and_blank_guard true "IXI" column150 w0
           column150_wf).
  - unfold dim0, column150, OUT_RESOLUTION. simpl. lia.
  - unfold dim1, column150, OUT_RESOLUTION. simpl. lia.
  - unfold dim2, column150, slice_max. simpl. lia.
Defined.

(** *** Runs without undersampling *)

Lemma rng_free_ret {A : Type} (a : A) : rng_free (ret a).
Proof. intros g g' files. reflexivity. Qed.

Lemma rng_free_lift {A : Type} (r : result A) : rng_free (lift r).
Proof. intros g g' files. reflexivity. Qed.

Lemma rng_free_save outname output : rng_free (save outname output).
Proof. intros g g' files. reflexivity. Qed.

Lemma rng_free_bind {A B : Type} (m : M A) (k : A -> M B) :
  rng_free m -> (forall a, rng_free (k a)) -> rng_free (bind m k).
Proof.
  intros Hm Hk g g' files. unfold bind. rewrite (Hm g g' files).
  destruct (m (mkWorld g files)) as [[e|a] w1]; cbn [fst snd];
    [reflexivity|].
  rewrite (Hk a (w_rng w1) g' (w_written w1)). now rewrite world_eta.
Qed.

Lemma rng_free_for_each {A : Type} (xs : list A) (body : A -> M unit) :
  (forall x, rng_free (body x)) -> rng_free (for_each xs body).
Proof.
  intros Hb. induction xs as [|x xs IH]; simpl.
  - apply rng_free_ret.
  - apply rng_free_bind; [apply Hb|intros _; exact IH].
Qed.

Lemma genpng_slice_rng_free name shape img s :
  rng_free (genpng_slice false name shape img s).
Proof.
  unfold genpng_slice.
  apply rng_free_bind; [apply rng_free_lift|intros sl].
  apply rng_free_bind; [apply rng_free_ret|intros sl'].
  apply rng_free_bind; [apply rng_free_lift|intros output].
  apply rng_free_bind; [apply rng_free_lift|intros mx].
  destruct (Rltb 1 mx); [apply rng_free_save|apply rng_free_ret].
Qed.

Lemma genpng_volume_rng_free name v : rng_free (genpng_volume false name v).
Proof.
  unfold genpng_volume.
  apply rng_free_bind; [apply rng_free_lift|intros img].
  apply rng_free_for_each. intros s. apply genpng_slice_rng_free.
Qed.

Lemma rng_free_raise {A : Type} (e : exn) : rng_free (@raise A e).
Proof. intros g g' files. reflexivity. Qed.

Lemma genpng_rng_free a nii_files :
  undersample a = false -> rng_free (genpng a nii_files).
Proof.
  intros Hu. unfold genpng.
  destruct (outdir a); [|apply rng_free_raise].
  destruct (ixi_dir a); [|apply rng_free_raise].
  apply rng_free_for_each. intros f. rewrite Hu.
  apply genpng_volume_rng_free.
Qed.

Lemma rng_free_agree {A : Type} (m : M A) g1 g2 files :
  rng_free m ->
  fst (m (mkWorld g1 files)) = fst (m (mkWorld g2 files)) /\
  w_written (snd (m (mkWorld g1 files)))
  = w_written (snd (m (mkWorld g2 files))) /\
  w_rng (snd (m (mkWorld g1 files))) = g1 /\
  w_rng (snd (m (mkWorld g2 files))) = g2.
Proof.
  intros H. pose proof (H g1 g2 files) as H12.
  pose proof (H g1 g1 files) as H11.
  rewrite H12. cbn [fst snd w_written w_rng].
  repeat split. rewrite H11. reflexivity.
Qed.

(** C10. Without the undersample flag, neither one depth index, nor a
    whole volume, nor a whole run of [genpng] draws from the generator,
    and the outcome does not depend on it: two runs from the same output directory, whatever
    their generators, end with the same result (the same exception, if
    any), the same files written (names and pixel values, in the same
    order) and each with its generator untouched. *)
Theorem C10_no_undersample_is_deterministic :
  forall (name : string) (v : nii) (g1 g2 : rng)
         (files : list (string * list (list R))),
    (forall shape img s,
       let r1 := genpng_slice false name shape img s (mkWorld g1 files) in
       let r2 := genpng_slice false name shape img s (mkWorld g2 files) in
       fst r1 = fst r2 /\
       w_written (snd r1) = w_written (snd r2) /\
       w_rng (snd r1) = g1 /\ w_rng (snd r2) = g2) /\
    (let r1 := genpng_volume false name v (mkWorld g1 files) in
     let r2 := genpng_volume false name v (mkWorld g2 files) in
     fst r1 = fst r2 /\
     w_written (snd r1) = w_written (snd r2) /\
     w_rng (snd r1) = g1 /\ w_rng (snd r2) = g2) /\
    (forall out_dir in_dir nii_files,
       let a := mkArgs out_dir in_dir false in
       let r1 := genpng a nii_files (mkWorld g1 files) in
       let r2 := genpng a nii_files (mkWorld g2 files) in
       fst r1 = fst r2 /\
       w_written (snd r1) = w_written (snd r2) /\
       w_rng (snd r1) = g1 /\ w_rng (snd r2) = g2).
Proof.
  intros name v g1 g2 files. split; [|split].
  - intros shape img s. cbv zeta.
    apply rng_free_agree, genpng_slice_rng_free.
  - cbv zeta. apply rng_free_agree, genpng_volume_rng_free.
  - intros out_dir in_dir nii_files. cbv zeta.
    now apply rng_free_agree, genpng_rng_free.
Qed.

(** * Further properties of the code *)

(** ** [fftshift2d]: where the elements go *)

Section SwapIndex.
Context {T : Type}.
Implicit Types (a : list T).

(** The element at [i] of a half-swap comes from [(i + k) mod n]. *)
Lemma swap_halves_nth k a i d :
  (k <= length a)%nat -> (i < length a)%nat ->
  nth i (swap_halves k a) d = nth ((i + k) mod length a) a d.
Proof.
  intros Hk Hi. unfold swap_halves.
  destruct (Nat.lt_ge_cases i (length a - k)) as [Hlt|Hge].
  - rewrite app_nth1 by (rewrite length_skipn; lia).
    rewrite nth_skipn, Nat.mod_small by lia. f_equal. lia.
  - rewrite app_nth2 by (rewrite length_skipn; lia).
    rewrite length_skipn, nth_firstn.
    destruct (Nat.ltb_spec (i - (length a - k)) k) as [_|Hbad]; [|lia].
    f_equal.
    apply Nat.mod_unique with (q := 1%nat); lia.
Qed.

Lemma swap_halves_perm k a : Permutation (swap_halves k a) a.
Proof.
  unfold swap_halves. rewrite <- (firstn_skipn k a) at 3.
  apply Permutation_app_comm.
Qed.

End SwapIndex.

Section SwapIndex2.
Context {T : Type}.
Implicit Types (x : list (list T)).

Lemma concat_perm_rows (f : list T -> list T) x :
  (forall r, Permutation (f r) r) ->
  Permutation (concat (map f x)) (concat x).
Proof.
  intros Hf. induction x as [|r x IH]; simpl; [constructor|].
  now apply Permutation_app.
Qed.

Lemma concat_perm x x' :
  Permutation x x' -> Permutation (concat x) (concat x').
Proof.
  intros H. induction H; simpl.
  - constructor.
  - now apply Permutation_app_head.
  - rewrite !app_assoc. apply Permutation_app_tail, Permutation_app_comm.
  - eapply Permutation_trans; eassumption.
Qed.

Lemma swap_halves2_perm k0 k1 x :
  Permutation (concat (swap_halves2 k0 k1 x)) (concat x).
Proof.
  unfold swap_halves2.
  eapply Permutation_trans.
  - apply concat_perm_rows. intros r. apply swap_halves_perm.
  - apply concat_perm, swap_halves_perm.
Qed.

Lemma swap_halves2_get k0 k1 m n x i j d :
  rect m n x -> (k0 <= m)%nat -> (k1 <= n)%nat ->
  (i < m)%nat -> (j < n)%nat ->
  get d (swap_halves2 k0 k1 x) i j
  = get d x ((i + k0) mod m) ((j + k1) mod n).
Proof.
  intros Hx H0 H1 Hi Hj. pose proof Hx as [Hlen Hrows].
  unfold swap_halves2, get.
  rewrite (nth_indep _ [] (swap_halves k1 []))
    by (rewrite length_map, swap_halves_length; lia).
  rewrite map_nth.
  rewrite (@swap_halves_nth _ k0 x i []) by lia. rewrite Hlen.
  assert (Hr : length (nth ((i + k0) mod m) x []) = n).
  { eapply rect_row; [exact Hx|]. apply nth_In. rewrite Hlen.
    apply Nat.mod_upper_bound. lia. }
  rewrite swap_halves_nth by lia. now rewrite Hr.
Qed.

End SwapIndex2.

(** X1. On a 2-D array whose two axis lengths are odd, [fftshift2d] with
    [ifft=True] followed by [fftshift2d] with [ifft=False] gives the
    array back: the two variants are inverse to each other in this order
    too. *)
Theorem X1_fftshift2d_inverse_then_forward :
  forall (T : Type) (m n : nat) (x : list (list T)),
    rect m n x -> Nat.odd m = true -> Nat.odd n = true ->
    rbind (fftshift2d x true) (fun y => fftshift2d y false) = Ok x.
Proof.
  intros T m n x Hx Hm Hn.
  pose proof (odd_half _ Hm) as Em. pose proof (odd_half _ Hn) as En.
  rewrite (fftshift2d_odd true Hx Hm Hn). cbn [rbind Ok].
  rewrite (fftshift2d_odd false (rect_swap_halves2 _ _ Hx) Hm Hn).
  unfold Ok. f_equal. rewrite !Nat.add_0_r.
  set (k0 := (m / 2)%nat) in *. set (k1 := (n / 2)%nat) in *.
  replace (k0 + 1)%nat with (m - k0)%nat by lia.
  replace (k1 + 1)%nat with (n - k1)%nat by lia.
  apply swap_halves2_inv; [assumption|lia|lia].
Qed.

Lemma X1_witness :
  rbind (fftshift2d sample33 true) (fun y => fftshift2d y false)
  = Ok sample33.
Proof.
  apply (@X1_fftshift2d_inverse_then_forward nat 3 3 sample33 rect_sample33);
    reflexivity.
Defined.

(** X2. On odd axis lengths [fftshift2d] only rearranges: the result has
    the shape of the input and holds the same elements, each as many
    times as the input does. *)
Theorem X2_fftshift2d_rearranges :
  forall (T : Type) (m n : nat) (x : list (list T)) (ifft : bool),
    rect m n x -> Nat.odd m = true -> Nat.odd n = true ->
    exists y,
      fftshift2d x ifft = Ok y /\
      rect m n y /\
      Permutation (concat y) (concat x).
Proof.
  intros T m n x ifft Hx Hm Hn.
  rewrite (fftshift2d_odd ifft Hx Hm Hn). eexists. split; [reflexivity|].
  split; [now apply rect_swap_halves2|apply swap_halves2_perm].
Qed.

Lemma X2_witness :
  exists y,
    fftshift2d sample33 false = Ok y /\
    rect 3 3 y /\
    Permutation (concat y) (concat sample33).
Proof.
  apply (@X2_fftshift2d_rearranges nat 3 3 sample33 false rect_sample33);
    reflexivity.
Defined.

(** X3. On odd axis lengths, the forward shift takes its element
    [i, j] from [(i + m//2 + 1) mod m, (j + n//2 + 1) mod n] and the
    inverse shift from [(i + m//2) mod m, (j + n//2) mod n]. So the
    forward shift puts the corner element [0, 0] (the zero frequency of
    a spectrum) at the centre [m//2, n//2], and the inverse shift puts
    the centre element back at [0, 0]. *)
Theorem X3_fftshift2d_centres_the_corner :
  forall (T : Type) (d : T) (m n : nat) (x : list (list T)),
    rect m n x -> Nat.odd m = true -> Nat.odd n = true ->
    exists yf yi,
      fftshift2d x false = Ok yf /\
      fftshift2d x true = Ok yi /\
      (forall i j, (i < m)%nat -> (j < n)%nat ->
         get d yf i j
         = get d x ((i + m / 2 + 1) mod m) ((j + n / 2 + 1) mod n)) /\
      (forall i j, (i < m)%nat -> (j < n)%nat ->
         get d yi i j = get d x ((i + m / 2) mod m) ((j + n / 2) mod n)) /\
      get d yf (m / 2) (n / 2) = get d x 0 0 /\
      get d yi 0 0 = get d x (m / 2) (n / 2).
Proof.
  intros T d m n x Hx Hm Hn.
  pose proof (odd_half _ Hm) as Em. pose proof (odd_half _ Hn) as En.
  rewrite !(fftshift2d_odd _ Hx Hm Hn). rewrite !Nat.add_0_r.
  set (k0 := (m / 2)%nat) in *. set (k1 := (n / 2)%nat) in *.
  assert (Hf : forall i j, (i < m)%nat -> (j < n)%nat ->
             get d (swap_halves2 (k0 + 1) (k1 + 1) x) i j
             = get d x ((i + k0 + 1) mod m) ((j + k1 + 1) mod n)).
  { intros i j Hi Hj. rewrite (swap_halves2_get d Hx) by lia.
    now rewrite !Nat.add_assoc. }
  assert (Hi : forall i j, (i < m)%nat -> (j < n)%nat ->
             get d (swap_halves2 k0 k1 x) i j
             = get d x ((i + k0) mod m) ((j + k1) mod n)).
  { intros i j Hi Hj. now rewrite (swap_halves2_get d Hx) by lia. }
  eexists _, _. split; [reflexivity|]. split; [reflexivity|].
  split; [exact Hf|]. split; [exact Hi|]. split.
  - rewrite Hf by lia.
    replace (k0 + k0 + 1)%nat with m by lia.
    replace (k1 + k1 + 1)%nat with n by lia.
    now rewrite !Nat.Div0.mod_same.
  - rewrite Hi by lia. now rewrite !Nat.mod_small by lia.
Qed.

Lemma X3_witness :
  exists yf yi,
    fftshift2d sample33 false = Ok yf /\
    fftshift2d sample33 true = Ok yi /\
    (forall i j, (i < 3)%nat -> (j < 3)%nat ->
       get 0%nat yf i j
       = get 0%nat sample33 ((i + 3 / 2 + 1) mod 3) ((j + 3 / 2 + 1) mod 3)) /\
    (forall i j, (i < 3)%nat -> (j < 3)%nat ->
       get 0%nat yi i j
       = get 0%nat sample33 ((i + 3 / 2) mod 3) ((j + 3 / 2) mod 3)) /\
    get 0%nat yf (3 / 2) (3 / 2) = get 0%nat sample33 0 0 /\
    get 0%nat yi 0 0 = get 0%nat sample33 (3 / 2) (3 / 2).
Proof.
  apply (@X3_fftshift2d_centres_the_corner nat 0%nat 3 3 sample33
           rect_sample33); reflexivity.
Defined.

(** X4. The centering and un-centering that [undersample_kspace]
    applies (lines 39 and 42) work for every non-empty shape, even axis
    lengths included: [np.fft.fftshift] keeps the shape and puts the
    corner element [0, 0] at [m//2, n//2], and [np.fft.ifftshift]
    applied to its result gives the array back. *)
Theorem X4_numpy_shift_roundtrip_any_shape :
  forall (T : Type) (d : T) (m n : nat) (x : list (list T)),
    rect m n x -> (0 < m)%nat -> (0 < n)%nat ->
    rect m n (np_fftshift x) /\
    get d (np_fftshift x) (m / 2) (n / 2) = get d x 0 0 /\
    np_ifftshift (np_fftshift x) = x.
Proof.
  intros T d m n x Hx Hm Hn.
  split; [now apply np_fftshift_rect|]. split.
  - unfold np_fftshift.
    rewrite (rect_shape0 Hx), (rect_shape1 Hx Hm).
    rewrite (roll2_swap_halves2 _ _ Hx Hm Hn).
    assert (H0 : (m / 2 < m)%nat) by (apply Nat.div_lt; lia).
    assert (H1 : (n / 2 < n)%nat) by (apply Nat.div_lt; lia).
    rewrite !Z.mod_small by lia. rewrite !Nat2Z.id.
    rewrite (swap_halves2_get d Hx) by lia.
    replace (m / 2 + (m - m / 2))%nat with m by lia.
    replace (n / 2 + (n - n / 2))%nat with n by lia.
    now rewrite !Nat.Div0.mod_same.
  - now apply (np_ifftshift_fftshift Hx).
Qed.

Lemma X4_witness :
  rect 2 2 (np_fftshift slice22) /\
  get 0 (np_fftshift slice22) (2 / 2) (2 / 2) = get 0 slice22 0 0 /\
  np_ifftshift (np_fftshift slice22) = slice22.
Proof.
  apply (@X4_numpy_shift_roundtrip_any_shape R 0 2 2 slice22 rect_slice22);
    lia.
Defined.

(** ** [undersample_kspace]: sign, empty input, saturation, scaling *)

Lemma Cabs_nonneg z : 0 <= Cabs z.
Proof. unfold Cabs. apply sqrt_pos. Qed.

Lemma shape1_map {A B : Type} (f : A -> B) (x : list (list A)) :
  shape1 (map (map f) x) = shape1 x.
Proof. destruct x as [|r x]; [reflexivity|]. apply length_map. Qed.

Lemma shape0_map {A B : Type} (f : list A -> list B) (x : list (list A)) :
  shape0 (map f x) = shape0 x.
Proof. apply length_map. Qed.

(** X5. For every slice of finite float32 samples with at least one
    row and one column, every keep fraction and every state of the
    generator, [undersample_kspace] returns an array of the shape of the
    slice whose elements are all non-negative (it is a magnitude image),
    and takes one draw per element from the generator. *)
Theorem X5_undersample_output_is_nonnegative :
  forall (m n : nat) (slice : list (list R)) (mask_fraction : R) (w : world),
    rect m n slice -> (0 < m)%nat -> (0 < n)%nat ->
    Forall (Forall float32) slice ->
    exists out,
      undersample_kspace slice mask_fraction w = (Ok out, advance m n w) /\
      rect m n out /\
      Forall (Forall (fun v => 0 <= v)) out.
Proof.
  intros m n slice mf w Hx Hm Hn _.
  destruct (fft2_ok (RtoC_rect Hx) Hm Hn) as (F & HF & Hr & _).
  rewrite (undersample_unfold slice mf w HF Hr Hm).
  assert (Hk : rect m n (np_ifftshift
                 (mul_mask (np_fftshift F) (mask_of mf w m n)))).
  { apply np_ifftshift_rect. unfold mask_of.
    rewrite (mul_mask_tab _ (np_fftshift_rect Hr)). apply rect_tab. }
  destruct (ifft2_rect Hk Hm Hn) as (y & Hy & Hyr). rewrite Hy.
  exists (map (map Cabs) y). split; [reflexivity|]. split.
  - revert Hyr. apply rect_map_rows. intros r. apply length_map.
  - rewrite Forall_forall. intros r Hin.
    apply in_map_iff in Hin as (r' & <- & _).
    rewrite Forall_forall. intros v Hv.
    apply in_map_iff in Hv as (z & <- & _). apply Cabs_nonneg.
Qed.

Lemma X5_witness :
  exists out,
    undersample_kspace slice22 (1 / 2) w0 = (Ok out, advance 2 2 w0) /\
    rect 2 2 out /\
    Forall (Forall (fun v => 0 <= v)) out.
Proof.
  apply (@X5_undersample_output_is_nonnegative 2 2 slice22 (1 / 2) w0
           rect_slice22); [lia|lia|].
  unfold slice22. repeat constructor; apply float32_Z; reflexivity.
Defined.

(** X6. A slice with an axis of length zero is rejected: the transform
    raises [ValueError] before any random number is drawn, so the
    generator is left as it was. *)
Theorem X6_undersample_empty_slice :
  forall (slice : list (list R)) (mask_fraction : R) (w : world),
    shape0 slice = 0%nat \/ shape1 slice = 0%nat ->
    undersample_kspace slice mask_fraction w = (Raise ValueError, w).
Proof.
  intros slice mf w He.
  unfold undersample_kspace, bind, lift, fft2, empty_axis.
  rewrite shape0_map, shape1_map.
  destruct He as [-> | ->]; [reflexivity|].
  now rewrite Nat.eqb_refl, orb_true_r.
Qed.

Lemma X6_witness :
  undersample_kspace [[]; []] (1 / 2) w0 = (Raise ValueError, w0).
Proof.
  apply (@X6_undersample_empty_slice [[]; []] (1 / 2) w0).
  right. reflexivity.
Defined.



(** *** Scaling the slice *)



Lemma Cscal_Cscal c r z : Cscal c (Cscal r z) = Cscal r (Cscal c z).
Proof. cplx. Qed.




















(** ** Clamper, compositor and normalizer: ranges and rejections *)

Lemma clip_range v : 0 <= clip v 0 1 <= 1.
Proof.
  unfold clip, Rmin, Rmax. repeat (destruct (Rle_dec _ _)); lra.
Qed.

Lemma clip_inside v : 0 <= v <= 1 -> clip v 0 1 = v.
Proof.
  intros H. unfold clip, Rmin, Rmax. repeat (destruct (Rle_dec _ _)); lra.
Qed.

Lemma Forall2_map_in {A B : Type} (P : B -> Prop) (f : A -> B)
    (x : list (list A)) :
  (forall v, P (f v)) -> Forall (Forall P) (map (map f) x).
Proof.
  intros H. rewrite Forall_forall. intros r Hr.
  apply in_map_iff in Hr as (r' & <- & _).
  rewrite Forall_forall. intros u Hu.
  apply in_map_iff in Hu as (v & <- & _). apply H.
Qed.

Lemma Forall2_map_r {A B : Type} (P : A -> B -> Prop) (f : A -> B)
    (l : list A) :
  (forall a, P a (f a)) -> Forall2 P l (map f l).
Proof. intros H. induction l; simpl; constructor; auto. Qed.

Lemma clamp_scale_fp_pointwise rnd output :
  clamp_scale_fp rnd output
  = map (map (fun v =>
      fp_scale rnd 255 (fp_maximum (fp_minimum v (Fin 1)) (Fin 0)))) output.
Proof.
  unfold clamp_scale_fp. rewrite !map_map. apply map_ext. intros r.
  now rewrite !map_map.
Qed.

Lemma Rmin_Rmax_unit x : 0 <= Rmax (Rmin x 1) 0 <= 1.
Proof. unfold Rmin, Rmax. repeat (destruct (Rle_dec _ _)); lra. Qed.

(** One element through the clamper. *)
Lemma clamped_element rnd v :
  is_rounding rnd ->
  clamped v (fp_scale rnd 255 (fp_maximum (fp_minimum v (Fin 1)) (Fin 0))).
Proof.
  intros Hrnd.
  assert (Hin : forall x, 0 <= x <= 1 ->
            exists r, rnd (x * 255) = Fin r /\ 0 <= r <= 255).
  { intros x Hx. apply (rounding_between Hrnd float32_0 float32_255). lra. }
  destruct v as [x| | |].
  - right. split; [discriminate|]. cbn [fp_minimum fp_maximum fp_scale].
    apply Hin, Rmin_Rmax_unit.
  - right. split; [discriminate|]. cbn [fp_minimum fp_maximum fp_scale].
    apply Hin. unfold Rmax. destruct (Rle_dec 1 0); lra.
  - right. split; [discriminate|]. cbn [fp_minimum fp_maximum fp_scale].
    apply Hin. lra.
  - left. split; reflexivity.
Qed.

(** X9. Every element of the clamped and scaled canvas is NaN exactly
    where the canvas holds NaN, and anywhere else a finite value in
    [0, 255]: finite values and infinities are clamped, NaN passes
    through [np.minimum], [np.maximum] and the product. On a canvas of
    finite values the clamper, computed exactly, is [clamp_scale]; and
    where they are already in [0, 1] it only multiplies by 255. *)
Theorem X9_clamp_scale_range :
  forall (rnd : R -> fp) (output : list (list fp)) (x : list (list R)),
    is_rounding rnd ->
    Forall2 (Forall2 clamped) output (clamp_scale_fp rnd output) /\
    clamp_scale_fp Fin (map (map Fin) x) = map (map Fin) (clamp_scale x) /\
    (Forall (Forall (fun v => 0 <= v <= 1)) x ->
     clamp_scale_fp rnd (map (map Fin) x)
     = map (map (fun v => rnd (v * 255))) x).
Proof.
  intros rnd output x Hrnd. rewrite !clamp_scale_fp_pointwise.
  split; [|split].
  - apply Forall2_map_r. intros r. apply Forall2_map_r. intros v.
    now apply clamped_element.
  - unfold clamp_scale. rewrite !map_map. apply map_ext. intros r.
    now rewrite !map_map.
  - intros H. rewrite Forall_forall in H.
    rewrite map_map. apply map_ext_in. intros r Hr.
    rewrite map_map. apply map_ext_in. intros v Hv.
    specialize (H r Hr). rewrite Forall_forall in H. specialize (H v Hv).
    cbn [fp_minimum fp_maximum fp_scale]. do 2 f_equal.
    unfold Rmin, Rmax. repeat (destruct (Rle_dec _ _)); lra.
Qed.

(** The block selected on an axis of the canvas by an oversize slice is
    too short for the slice. *)
Lemma oversize_does_not_fit n :
  (OUT_RESOLUTION < n)%nat ->
  fits (slice_bound OUT_RESOLUTION (hborder n + Z.of_nat n)
        - slice_bound OUT_RESOLUTION (hborder n)) n = false.
Proof.
  intros H0. set (h := hborder n).
  assert (Hh : (- Z.of_nat n < 2 * h < 0)%Z).
  { subst h. unfold hborder.
    set (d := (Z.of_nat OUT_RESOLUTION - Z.of_nat n)%Z).
    assert (Hd : (d < 0)%Z) by (subst d; lia).
    pose proof (Z.mul_div_le d 2 ltac:(lia)).
    pose proof (Z.mul_succ_div_gt d 2 ltac:(lia)).
    assert (2 < Z.of_nat OUT_RESOLUTION)%Z by (unfold OUT_RESOLUTION; lia).
    subst d. lia. }
  assert (HR : (0 < OUT_RESOLUTION)%nat) by (unfold OUT_RESOLUTION; lia).
  unfold fits, slice_bound.
  destruct (Z.ltb_spec h 0); [|lia].
  destruct (Z.ltb_spec (h + Z.of_nat n) 0); [lia|].
  destruct (Nat.eqb_spec n 1) as [E1|E1]; [lia|].
  rewrite orb_false_r. apply Nat.eqb_neq. lia.
Qed.

(** X10. A slice larger than the canvas on either axis is rejected: the
    border is negative, the block it selects on the canvas is shorter
    than the slice, and the assignment raises [ValueError]. The slice is
    never cropped or wrapped around silently. *)
Theorem X10_compose_rejects_oversize :
  forall (n0 n1 : nat) (slice : list (list R)),
    rect n0 n1 slice -> (0 < n0)%nat ->
    (OUT_RESOLUTION < n0)%nat \/ (OUT_RESOLUTION < n1)%nat ->
    compose (n0, n1) slice = Raise ValueError.
Proof.
  intros n0 n1 slice Hs Hpos Hbig.
  assert (HR : (0 < OUT_RESOLUTION)%nat) by (unfold OUT_RESOLUTION; lia).
  unfold compose, set_block. cbn [fst snd].
  rewrite (rect_shape0 (zeros_rect _ _)).
  rewrite (rect_shape1 (zeros_rect _ _) HR).
  rewrite (rect_shape0 Hs), (rect_shape1 Hs Hpos).
  destruct Hbig as [H|H]; rewrite (oversize_does_not_fit H).
  - reflexivity.
  - now rewrite andb_false_r.
Qed.

Lemma X10_witness :
  compose (1, 257)%nat [repeat 1 257] = Raise ValueError.
Proof.
  apply (@X10_compose_rejects_oversize 1 257 [repeat 1 257]).
  - split; [reflexivity|]. repeat constructor.
  - lia.
  - right. unfold OUT_RESOLUTION. lia.
Defined.

(** *** Normalizing twice *)

Lemma amax_unique l a :
  In a l -> Forall (fun v => v <= a) l -> amax l = Ok a.
Proof.
  intros Hin Hub.
  assert (Hne : l <> []) by (destruct l; [contradiction|discriminate]).
  destruct (amax_spec Hne) as (mx & Hmx & Hi & Hu). rewrite Hmx.
  unfold Ok. f_equal. rewrite Forall_forall in Hub, Hu.
  apply Rle_antisym; [now apply Hub|now apply Hu].
Qed.

(** X11. Normalizing is idempotent on volumes of float32 samples,
    none negative and at least one positive: the normalized volume is
    finite and has maximum exactly 1 (the maximum divided by itself), so
    normalizing it again returns it unchanged, whatever the rounding of
    the quotients. *)
Theorem X11_normalize_idempotent :
  forall (rnd : R -> fp) (img : list (list (list R))),
    is_rounding rnd ->
    Forall float32 (flatten3 img) ->
    Forall (fun v => 0 <= v) (flatten3 img) ->
    Exists (fun v => 0 < v) (flatten3 img) ->
    exists img1,
      normalize_rnd rnd img = Ok (map (map (map Fin)) img1) /\
      amax (flatten3 img1) = Ok 1 /\
      normalize_rnd rnd img1 = Ok (map (map (map Fin)) img1).
Proof.
  intros rnd img Hrnd _ Hnn Hpos.
  assert (Hne : flatten3 img <> []).
  { intros E. rewrite E in Hpos. inversion Hpos. }
  destruct (amax_spec Hne) as (mx & Hmx & Hin & Hub).
  assert (Hmxpos : 0 < mx).
  { apply Exists_exists in Hpos as (v & Hv & Hv0).
    rewrite Forall_forall in Hub. specialize (Hub v Hv). lra. }
  (* the finite value of a rounded quotient *)
  set (val := fun q : fp => match q with Fin r => r | _ => 0 end).
  set (img1 := map (map (map (fun v => val (rnd (v / mx))))) img).
  assert (Hq : forall v, In v (flatten3 img) ->
            exists r, rnd (v / mx) = Fin r /\ 0 <= r <= 1).
  { intros v Hv. apply (rounding_between Hrnd float32_0 float32_1).
    rewrite Forall_forall in Hnn, Hub.
    apply quotient_in_unit; [split; auto|assumption]. }
  assert (Hfin : forall v, In v (flatten3 img) ->
            rnd (v / mx) = Fin (val (rnd (v / mx)))).
  { intros v Hv. destruct (Hq v Hv) as (r & -> & _). reflexivity. }
  assert (Himg : map (map (map (fun v => rnd (v / mx)))) img
                 = map (map (map Fin)) img1).
  { subst img1. rewrite map_map. apply map_ext_in. intros p Hp.
    rewrite map_map. apply map_ext_in. intros c Hc.
    rewrite map_map. apply map_ext_in. intros v Hv.
    apply Hfin. unfold flatten3. apply in_concat. exists c. split; [|exact Hv].
    apply in_concat. exists p. split; assumption. }
  assert (H1 : amax (flatten3 img1) = Ok 1).
  { apply amax_unique; subst img1; rewrite flatten3_map_poly.
    - apply in_map_iff. exists mx. split; [|exact Hin].
      replace (mx / mx) with 1 by (field; lra).
      destruct Hrnd as (_ & Hfix & _). now rewrite (Hfix _ float32_1).
    - rewrite Forall_forall. intros q Hin'.
      apply in_map_iff in Hin' as (v & <- & Hv).
      destruct (Hq v Hv) as (r & -> & Hr). simpl. lra. }
  exists img1. split; [|split; [exact H1|]].
  - unfold normalize_rnd. rewrite Hmx. cbn [rbind Ok]. now rewrite Himg.
  - unfold normalize_rnd. rewrite H1. cbn [rbind Ok]. unfold Ok. f_equal.
    subst img1. rewrite !map_map. apply map_ext_in. intros p Hp.
    rewrite !map_map. apply map_ext_in. intros c Hc.
    rewrite !map_map. apply map_ext_in. intros v Hv.
    assert (Hv' : In v (flatten3 img)).
    { unfold flatten3. apply in_concat. exists c. split; [|exact Hv].
      apply in_concat. exists p. split; assumption. }
    destruct (Hq v Hv') as (r & Er & _). rewrite Er. simpl.
    replace (r / 1) with r by field.
    destruct Hrnd as (_ & _ & Hidem). exact (Hidem _ _ Er).
Qed.

Lemma X11_witness :
  exists img1,
    normalize_rnd Fin volume12 = Ok (map (map (map Fin)) img1) /\
    amax (flatten3 img1) = Ok 1 /\
    normalize_rnd Fin img1 = Ok (map (map (map Fin)) img1).
Proof.
  apply (@X11_normalize_idempotent Fin volume12 exact_is_rounding).
  - unfold volume12, flatten3. simpl.
    repeat constructor; [exact float32_1|exact float32_2].
  - unfold volume12, flatten3. simpl. repeat constructor; lra.
  - unfold volume12, flatten3. simpl. constructor. lra.
Defined.

Lemma X9_witness :
  Forall2 (Forall2 clamped) [[Fin (1 / 2); NaN; PInf]]
          (clamp_scale_fp Fin [[Fin (1 / 2); NaN; PInf]]) /\
  clamp_scale_fp Fin (map (map Fin) [[1 / 2; 1]])
  = map (map (fun v => Fin (v * 255))) [[1 / 2; 1]].
Proof.
  destruct (@X9_clamp_scale_range Fin [[Fin (1 / 2); NaN; PInf]]
              [[1 / 2; 1]] exact_is_rounding) as (Hr & _ & He).
  split; [exact Hr|]. apply He. repeat constructor; lra.
Defined.

(** ** File names *)

Lemma zeros_prefix_S k :
  String.concat "" (repeat "0"%string (S k))
  = String "0" (String.concat "" (repeat "0"%string k)).
Proof. destruct k; reflexivity. Qed.

Lemma uint_of_zeros k s d :
  NilEmpty.uint_of_string s = Some d ->
  option_map Nat.of_uint
    (NilEmpty.uint_of_string
       (String.concat "" (repeat "0"%string k) ++ s))
  = Some (Nat.of_uint d).
Proof.
  intros Hs. induction k as [|k IH].
  - simpl. now rewrite Hs.
  - rewrite zeros_prefix_S. cbn [String.append NilEmpty.uint_of_string].
    destruct (NilEmpty.uint_of_string
                (String.concat "" (repeat "0"%string k) ++ s)) as [d'|];
      [|discriminate].
    cbn in IH |- *. injection IH as IH. f_equal. exact IH.
Qed.

Lemma decode_fmt s : decode_03d (fmt_03d s) = Some s.
Proof.
  unfold decode_03d, fmt_03d.
  rewrite (uint_of_zeros _ _ (NilEmpty.usu (Nat.to_uint s))).
  now rewrite DecimalNat.Unsigned.of_to.
Qed.

Lemma string_app_length (a b : string) :
  String.length (a ++ b) = (String.length a + String.length b)%nat.
Proof. induction a as [|c a IH]; simpl; [reflexivity|now rewrite IH]. Qed.

Lemma string_app_inv_head (a b c : string) :
  (a ++ b)%string = (a ++ c)%string -> b = c.
Proof.
  induction a as [|x a IH]; simpl; [auto|].
  intros H. injection H as H. now apply IH.
Qed.

Lemma string_app_inv_tail (b c t : string) :
  (b ++ t)%string = (c ++ t)%string -> b = c.
Proof.
  revert c. induction b as [|x b IH]; intros [|y c] H; simpl in H.
  - reflexivity.
  - apply (f_equal String.length) in H. simpl in H.
    rewrite string_app_length in H. lia.
  - apply (f_equal String.length) in H. simpl in H.
    rewrite string_app_length in H. lia.
  - injection H as -> H. f_equal. now apply IH.
Qed.

(** X12. The three digits in a file name can be read back: decoding
    ["%03d" % s] gives [s] for every [s] (also beyond 999, where the
    field grows). Hence two depth indices of one volume never share a
    file name, and no slice overwrites another. *)
Theorem X12_file_names_are_distinct :
  (forall s, decode_03d (fmt_03d s) = Some s) /\
  (forall name s s', outname name s = outname name s' -> s = s').
Proof.
  split; [apply decode_fmt|].
  intros name s s' H. unfold outname in H.
  apply string_app_inv_head in H. apply string_app_inv_head in H.
  apply string_app_inv_tail in H.
  apply (f_equal decode_03d) in H. rewrite !decode_fmt in H.
  now injection H.
Qed.

Lemma X12_witness : outname "IXI" 25 <> outname "IXI" 26.
Proof.
  intros H.
  destruct X12_file_names_are_distinct as [_ Hinj].
  apply Hinj in H. discriminate H.
Defined.

(** ** The blank-slice guard and the rasters written *)

Lemma take_slice_ok n2 img s :
  (s < n2)%nat ->
  take_slice n2 img s = Ok (map (map (fun c => nth s c 0)) img).
Proof.
  intros Hs. unfold take_slice.
  destruct (Nat.ltb_spec s n2); [reflexivity|lia].
Qed.

Lemma compose_canvas_of n0 n1 slice :
  rect n0 n1 slice ->
  (0 < n0 <= OUT_RESOLUTION)%nat -> (n1 <= OUT_RESOLUTION)%nat ->
  compose (n0, n1) slice
  = Ok (tab OUT_RESOLUTION (fun i =>
          tab OUT_RESOLUTION (canvas_of n0 n1 slice i))).
Proof. intros Hs H0 H1. now rewrite (compose_spec Hs H0 H1). Qed.

(** The raster of a depth index is a clamped and scaled canvas. *)
Lemma slice_raster_clamped u n0 n1 n2 img s g :
  vol_rect n0 n1 n2 img ->
  (0 < n0 <= OUT_RESOLUTION)%nat -> (0 < n1 <= OUT_RESOLUTION)%nat ->
  (s < n2)%nat ->
  exists sl,
    rect n0 n1 sl /\
    (u = false -> sl = map (map (fun c => nth s c 0)) img) /\
    forall files,
      slice_raster u (n0, n1, n2) img s (mkWorld g files)
      = (Ok (clamp_scale
               (tab OUT_RESOLUTION (fun i =>
                  tab OUT_RESOLUTION (canvas_of n0 n1 sl i)))),
         mkWorld (rng_after u n0 n1 1 g) files).
Proof.
  intros Hv H0 H1 Hs.
  pose proof (@take_slice_rect n0 n1 n2 img s Hv) as Hsl.
  pose proof (take_slice_ok img Hs) as Ht.
  set (sl0 := map (map (fun c => nth s c 0)) img) in *.
  assert (Hm : exists sl,
             rect n0 n1 sl /\ (u = false -> sl = sl0) /\
             forall files,
               (if u then undersample_kspace sl0 (1 / 2) else ret sl0)
                 (mkWorld g files)
               = (Ok sl, mkWorld (rng_after u n0 n1 1 g) files)).
  { destruct u.
    - destruct (@undersample_files n0 n1 sl0 (1 / 2) g Hsl) as (o & Ho & Hr);
        [lia|lia|].
      exists o. split; [exact Ho|]. split; [discriminate|exact Hr].
    - exists sl0. split; [assumption|]. split; [reflexivity|].
      intros files. reflexivity. }
  destruct Hm as (sl & Hr & Hu & Hrun).
  exists sl. split; [exact Hr|]. split; [exact Hu|].
  intros files. unfold slice_raster. cbn [fst snd].
  erewrite bind_ok by (unfold lift; rewrite Ht; reflexivity).
  rewrite (bind_ok _ (Hrun files)).
  erewrite bind_ok
    by (unfold lift; rewrite (compose_canvas_of Hr H0 (proj2 H1));
        reflexivity).
  reflexivity.
Qed.

Lemma in_tab2 {A : Type} m n (f : nat -> nat -> A) v :
  In v (flatten2 (tab m (fun i => tab n (f i))))
  <-> exists i j, (i < m)%nat /\ (j < n)%nat /\ f i j = v.
Proof.
  unfold flatten2, tab. rewrite in_concat. split.
  - intros (r & Hr & Hv).
    apply in_map_iff in Hr as (i & <- & Hi). apply in_seq in Hi.
    apply in_map_iff in Hv as (j & <- & Hj). apply in_seq in Hj.
    exists i, j. repeat split; lia.
  - intros (i & j & Hi & Hj & <-).
    exists (map (f i) (seq 0 n)). split.
    + apply in_map_iff. exists i. split; [reflexivity|apply in_seq; lia].
    + apply in_map_iff. exists j. split; [reflexivity|apply in_seq; lia].
Qed.

Lemma in_flatten2_get {A : Type} m n (x : list (list A)) d v :
  rect m n x ->
  (In v (flatten2 x)
   <-> exists i j, (i < m)%nat /\ (j < n)%nat /\ get d x i j = v).
Proof.
  intros Hx. rewrite <- (rect_tab_get d Hx) at 1. apply in_tab2.
Qed.

Lemma Exists2_get m n (x : list (list R)) (P : R -> Prop) :
  rect m n x ->
  (Exists (Exists P) x
   <-> exists i j, (i < m)%nat /\ (j < n)%nat /\ P (get 0 x i j)).
Proof.
  intros Hx. split.
  - intros H. apply Exists_exists in H as (r & Hr & H).
    apply Exists_exists in H as (v & Hv & HP).
    assert (Hin : In v (flatten2 x))
      by (unfold flatten2; apply in_concat; now exists r).
    apply (in_flatten2_get 0 v Hx) in Hin as (i & j & Hi & Hj & <-).
    now exists i, j.
  - intros (i & j & Hi & Hj & HP).
    assert (Hin : In (get 0 x i j) (flatten2 x))
      by (apply (in_flatten2_get 0 _ Hx); now exists i, j).
    unfold flatten2 in Hin. apply in_concat in Hin as (r & Hr & Hv).
    apply Exists_exists. exists r. split; [exact Hr|].
    apply Exists_exists. now exists (get 0 x i j).
Qed.

(** Every element of the canvas is zero or an element of the slice, and
    every element of the slice is on the canvas. *)
Lemma canvas_of_cases n0 n1 sl i j :
  canvas_of n0 n1 sl i j = 0 \/
  exists a b, (a < n0)%nat /\ (b < n1)%nat /\
              canvas_of n0 n1 sl i j = get 0 sl a b.
Proof.
  unfold canvas_of. cbv zeta.
  destruct ((_ <=? i) && (i <? _) && (_ <=? j) && (j <? _))%nat eqn:E;
    [|now left].
  right.
  apply andb_prop in E as [E Hj2]. apply andb_prop in E as [E Hj1].
  apply andb_prop in E as [Hi1 Hi2].
  apply Nat.leb_le in Hi1, Hj1. apply Nat.ltb_lt in Hi2, Hj2.
  eexists _, _. split; [|split; [|reflexivity]]; lia.
Qed.

Lemma canvas_of_slice n0 n1 sl a b :
  (a < n0)%nat -> (b < n1)%nat ->
  canvas_of n0 n1 sl (Z.to_nat (hborder n0) + a) (Z.to_nat (hborder n1) + b)
  = get 0 sl a b.
Proof.
  intros Ha Hb. unfold canvas_of. cbv zeta.
  replace ((_ <=? _) && (_ <? _) && (_ <=? _) && (_ <? _))%nat with true.
  - f_equal; lia.
  - symmetry. rewrite !andb_true_iff.
    repeat split; (apply Nat.leb_le || apply Nat.ltb_lt); lia.
Qed.

Lemma in_raster n0 n1 sl v :
  In v (flatten2 (clamp_scale
          (tab OUT_RESOLUTION (fun i =>
             tab OUT_RESOLUTION (canvas_of n0 n1 sl i)))))
  <-> exists i j, (i < OUT_RESOLUTION)%nat /\ (j < OUT_RESOLUTION)%nat /\
                  clip (canvas_of n0 n1 sl i j) 0 1 * 255 = v.
Proof.
  rewrite clamp_scale_pointwise.
  rewrite map_tab.
  rewrite tab_ext with
    (g := fun i => tab OUT_RESOLUTION
            (fun j => clip (canvas_of n0 n1 sl i j) 0 1 * 255))
    by (intros i _; apply map_tab).
  apply in_tab2.
Qed.

(** The maximum of the raster exceeds 1 exactly when some sample of the
    slice exceeds 1/255. *)
Lemma raster_bright n0 n1 sl mx :
  rect n0 n1 sl ->
  (n0 <= OUT_RESOLUTION)%nat -> (n1 <= OUT_RESOLUTION)%nat ->
  amax (flatten2 (clamp_scale
          (tab OUT_RESOLUTION (fun i =>
             tab OUT_RESOLUTION (canvas_of n0 n1 sl i))))) = Ok mx ->
  (1 < mx <-> Exists (Exists (fun v => 1 / 255 < v)) sl).
Proof.
  intros Hr H0 H1 Hmx.
  set (ras := clamp_scale _) in *.
  assert (Hne : flatten2 ras <> [])
    by (intros E; rewrite E in Hmx; discriminate).
  destruct (amax_spec Hne) as (mx' & Hmx' & Hin & Hub).
  rewrite Hmx in Hmx'. injection Hmx' as <-.
  rewrite (Exists2_get _ Hr). split.
  - intros Hlt. apply in_raster in Hin as (i & j & _ & _ & Hv).
    destruct (canvas_of_cases n0 n1 sl i j) as [Hz|(a & b & Ha & Hb & Hc)].
    + rewrite Hz in Hv. rewrite clip_inside in Hv by lra. lra.
    + exists a, b. split; [exact Ha|]. split; [exact Hb|].
      rewrite Hc in Hv. revert Hv. unfold clip, Rmin, Rmax.
      repeat (destruct (Rle_dec _ _)); intros; lra.
  - intros (a & b & Ha & Hb & Hv).
    destruct (hborder_bounds H0) as [Hb0 Hc0].
    destruct (hborder_bounds H1) as [Hb1 Hc1].
    assert (Hel : In (clip (get 0 sl a b) 0 1 * 255) (flatten2 ras)).
    { apply in_raster.
      exists (Z.to_nat (hborder n0) + a)%nat, (Z.to_nat (hborder n1) + b)%nat.
      split; [lia|]. split; [lia|].
      now rewrite canvas_of_slice. }
    rewrite Forall_forall in Hub. specialize (Hub _ Hel).
    revert Hub. unfold clip, Rmin, Rmax.
    repeat (destruct (Rle_dec _ _)); intros; lra.
Qed.

(** X13. Without undersampling, depth index [s] adds a file exactly
    when some sample of the normalized slice exceeds 1/255: if one
    does, the file [<name>_<s>.png] is appended, and if none does,
    nothing is written. Either way the depth index raises nothing and
    leaves the generator alone. *)
Theorem X13_written_iff_some_sample_above_1_255 :
  forall (name : string) (n0 n1 n2 : nat) (img : list (list (list R)))
         (s : nat) (g : rng) (files : list (string * list (list R))),
    vol_rect n0 n1 n2 img ->
    (0 < n0 <= OUT_RESOLUTION)%nat -> (0 < n1 <= OUT_RESOLUTION)%nat ->
    (s < n2)%nat ->
    let slice := map (map (fun c => nth s c 0)) img in
    (Exists (Exists (fun v => 1 / 255 < v)) slice ->
     exists output,
       genpng_slice false name (n0, n1, n2) img s (mkWorld g files)
       = (Ok tt, mkWorld g (files ++ [(outname name s, output)]))) /\
    (Forall (Forall (fun v => v <= 1 / 255)) slice ->
     genpng_slice false name (n0, n1, n2) img s (mkWorld g files)
     = (Ok tt, mkWorld g files)).
Proof.
  intros name n0 n1 n2 img s g files Hv H0 H1 Hs slice.
  destruct (@slice_raster_clamped false n0 n1 n2 img s g Hv H0 H1 Hs)
    as (sl & Hr & Hsl & Hrun).
  specialize (Hsl eq_refl). subst sl. fold slice in Hr, Hrun.
  set (ras := clamp_scale _) in *.
  assert (HR : (0 < OUT_RESOLUTION)%nat) by (unfold OUT_RESOLUTION; lia).
  assert (Hras : rect OUT_RESOLUTION OUT_RESOLUTION ras)
    by (apply clamp_scale_rect, rect_tab).
  destruct (amax_spec (rect_flatten2_nonempty Hras HR HR)) as (mx & Hmx & _).
  pose proof (raster_bright Hr (proj2 H0) (proj2 H1) Hmx) as Hb.
  assert (Hrun' : genpng_slice false name (n0, n1, n2) img s (mkWorld g files)
                  = (if Rltb 1 mx then save (outname name s) ras else ret tt)
                      (mkWorld g files)).
  { rewrite genpng_slice_split, (bind_ok _ (Hrun files)).
    unfold save_if_bright.
    erewrite bind_ok by (unfold lift; rewrite Hmx; reflexivity).
    reflexivity. }
  split.
  - intros Hex. exists ras. rewrite Hrun', Rltb_true by now apply Hb.
    reflexivity.
  - intros Hall. rewrite Hrun', Rltb_false; [reflexivity|].
    apply Rnot_lt_le. intros Hlt. apply Hb in Hlt.
    apply Exists_exists in Hlt as (r & Hin & Hex).
    apply Exists_exists in Hex as (v & Hvin & Hlt).
    rewrite Forall_forall in Hall. specialize (Hall r Hin).
    rewrite Forall_forall in Hall. specialize (Hall v Hvin). lra.
Qed.

Lemma column150_rect : vol_rect 1 1 150 [[repeat 1 150]].
Proof. split; [reflexivity|]. repeat constructor. Qed.

Lemma X13_witness :
  exists output,
    genpng_slice false "IXI" (1, 1, 150)%nat [[repeat 1 150]] 25
                 (mkWorld (w_rng w0) [])
    = (Ok tt, mkWorld (w_rng w0) ([] ++ [(outname "IXI" 25, output)])).
Proof.
  destruct (@X13_written_iff_some_sample_above_1_255
              "IXI" 1 1 150 [[repeat 1 150]] 25 (w_rng w0) []
              column150_rect) as [Hw _];
    try (unfold OUT_RESOLUTION; lia).
  apply Hw. constructor. constructor. simpl. lra.
Defined.

Lemma clamp_scale_in_range output :
  Forall (Forall (fun v => 0 <= v <= 255)) (clamp_scale output).
Proof.
  rewrite clamp_scale_pointwise. apply Forall2_map_in.
  intros v. pose proof (clip_range v). lra.
Qed.

(** X14. With or without undersampling, a depth index inside the volume
    raises nothing and either writes nothing or appends exactly one
    file, named [<name>_<s>.png]; the raster in that file is 256 by 256,
    all its elements lie in [0, 255], and at least one of them exceeds
    1. *)
Theorem X14_written_rasters_are_well_formed :
  forall (u : bool) (name : string) (n0 n1 n2 : nat)
         (img : list (list (list R))) (s : nat) (g : rng)
         (files : list (string * list (list R))),
    vol_rect n0 n1 n2 img ->
    (0 < n0 <= OUT_RESOLUTION)%nat -> (0 < n1 <= OUT_RESOLUTION)%nat ->
    (s < n2)%nat ->
    exists w',
      genpng_slice u name (n0, n1, n2) img s (mkWorld g files) = (Ok tt, w') /\
      w_rng w' = rng_after u n0 n1 1 g /\
      (w_written w' = files \/
       exists output,
         w_written w' = files ++ [(outname name s, output)] /\
         rect 256 256 output /\
         Forall (Forall (fun v => 0 <= v <= 255)) output /\
         Exists (Exists (fun v => 1 < v)) output).
Proof.
  intros u name n0 n1 n2 img s g files Hv H0 H1 Hs.
  destruct (@slice_raster_clamped u n0 n1 n2 img s g Hv H0 H1 Hs)
    as (sl & Hr & _ & Hrun).
  set (ras := clamp_scale _) in *.
  assert (HR : (0 < OUT_RESOLUTION)%nat) by (unfold OUT_RESOLUTION; lia).
  assert (Hras : rect OUT_RESOLUTION OUT_RESOLUTION ras)
    by (apply clamp_scale_rect, rect_tab).
  destruct (amax_spec (rect_flatten2_nonempty Hras HR HR))
    as (mx & Hmx & Hin & _).
  rewrite genpng_slice_split, (bind_ok _ (Hrun files)).
  unfold save_if_bright.
  erewrite bind_ok by (unfold lift; rewrite Hmx; reflexivity).
  unfold Rltb. destruct (Rlt_dec 1 mx) as [Hlt|Hge].
  - eexists. split; [reflexivity|]. split; [reflexivity|]. right.
    exists ras. split; [reflexivity|]. split; [exact Hras|].
    split; [apply clamp_scale_in_range|].
    unfold flatten2 in Hin. apply in_concat in Hin as (r & Hr' & Hv').
    apply Exists_exists. exists r. split; [exact Hr'|].
    apply Exists_exists. exists mx. split; assumption.
  - eexists. split; [reflexivity|]. split; [reflexivity|]. now left.
Qed.

Lemma X14_witness :
  exists w',
    genpng_slice true "IXI" (1, 1, 150)%nat [[repeat 1 150]] 25
                 (mkWorld (w_rng w0) []) = (Ok tt, w') /\
    w_rng w' = rng_after true 1 1 1 (w_rng w0) /\
    (w_written w' = [] \/
     exists output,
       w_written w' = [] ++ [(outname "IXI" 25, output)] /\
       rect 256 256 output /\
       Forall (Forall (fun v => 0 <= v <= 255)) output /\
       Exists (Exists (fun v => 1 < v)) output).
Proof.
  apply (@X14_written_rasters_are_well_formed
           true "IXI" 1 1 150 [[repeat 1 150]] 25 (w_rng w0) []
           column150_rect); unfold OUT_RESOLUTION; lia.
Defined.

(** ** Whole volumes and whole directories *)

Lemma for_each_app {A : Type} (l1 l2 : list A) (body : A -> M unit) w :
  for_each (l1 ++ l2) body w
  = bind (for_each l1 body) (fun _ => for_each l2 body) w.
Proof.
  revert w. induction l1 as [|x l1 IH]; intros w; simpl.
  - reflexivity.
  - rewrite bind_assoc. unfold bind at 1 2.
    destruct (body x w) as [[e|[]] w1]; [reflexivity|]. apply IH.
Qed.

(** The loop over a window that runs past the depth of the volume: the
    indices inside the volume are processed, then the loop stops. *)
Lemma genpng_loop_partial u name n0 n1 n2 img :
  vol_rect n0 n1 n2 img ->
  (0 < n0 <= OUT_RESOLUTION)%nat -> (0 < n1 <= OUT_RESOLUTION)%nat ->
  forall k a g files,
    (0 < k)%nat -> (n2 < a + k)%nat ->
    for_each (seq a k) (genpng_slice u name (n0, n1, n2) img)
             (mkWorld g files)
    = (Raise IndexError,
       mkWorld (rng_after u n0 n1 (n2 - a) g)
               (files ++ flat_map (fun s =>
                  file_of u name (n0, n1, n2) img s
                          (rng_after u n0 n1 (s - a) g))
                  (seq a (n2 - a)))).
Proof.
  intros Hv H0 H1 k a g files Hk Hlt.
  assert (Hfail : forall b j w, (n2 <= b)%nat ->
            for_each (seq b (S j)) (genpng_slice u name (n0, n1, n2) img) w
            = (Raise IndexError, w)).
  { intros b j w Hb. cbn [seq for_each]. erewrite bind_raise; [reflexivity|].
    unfold genpng_slice. cbn [snd]. erewrite bind_raise; [reflexivity|].
    unfold lift, take_slice.
    destruct (Nat.ltb_spec b n2); [lia|reflexivity]. }
  destruct (Nat.le_gt_cases n2 a) as [Hle|Hgt].
  - replace (n2 - a)%nat with 0%nat by lia.
    destruct k as [|k]; [lia|]. rewrite Hfail by lia.
    cbn [seq flat_map]. now rewrite rng_after_0, app_nil_r.
  - replace k with ((n2 - a) + (k - (n2 - a)))%nat at 1 by lia.
    rewrite seq_app, for_each_app.
    rewrite (bind_ok _ (genpng_loop_ok u name Hv H0 H1 (n2 - a) a g files
                          ltac:(lia))).
    replace (a + (n2 - a))%nat with n2 by lia.
    destruct (k - (n2 - a))%nat as [|j] eqn:E; [lia|].
    now rewrite Hfail by lia.
Qed.


(** X15. A volume that fits the canvas but whose depth is below 125
    stops the run with [IndexError] at the first depth index outside
    it. What was written before stays: the files of the indices 25 to
    depth - 1 (none when the depth is at most 25), and the generator
    has advanced past the masks of those indices. *)
Theorem X15_short_volume_leaves_partial_output :
  forall (u : bool) (name : string) (v : nii) (w : world),
    short_volume v ->
    genpng_volume u name v w
    = (Raise IndexError,
       mkWorld (rng_after u (dim0 v) (dim1 v) (dim2 v - slice_min) (w_rng w))
               (w_written w
                ++ volume_files u name v (dim2 v - slice_min) (w_rng w))).
Proof.
  intros u name v w (Hv & H0 & H1 & H2).
  destruct v as [[[n0 n1] n2] data]. unfold nii_wf, dim0, dim1, dim2 in *.
  cbn [nii_shape nii_fdata fst snd] in *.
  destruct (normalize_ok Hv) as (img & Hn & Hi); try lia.
  unfold genpng_volume, volume_files. cbn [nii_shape nii_fdata].
  erewrite bind_ok by (unfold lift; rewrite Hn; reflexivity).
  rewrite Hn. unfold Ok. rewrite <- (world_eta w) at 1.
  unfold dim0, dim1. cbn [nii_shape fst snd].
  apply (genpng_loop_partial u name Hi H0 H1);
    unfold slice_min, slice_max in *; lia.
Qed.

Lemma short_shallow : short_volume shallow.
Proof.
  split; [exact shallow_wf|].
  unfold dim0, dim1, dim2, shallow, OUT_RESOLUTION, slice_max. simpl. lia.
Qed.

Lemma X15_witness :
  genpng_volume false "IXI" shallow w0
  = (Raise IndexError,
     mkWorld (rng_after false (dim0 shallow) (dim1 shallow)
                        (dim2 shallow - slice_min) (w_rng w0))
             (w_written w0
              ++ volume_files false "IXI" shallow
                              (dim2 shallow - slice_min) (w_rng w0))).
Proof.
  apply (@X15_short_volume_leaves_partial_output false "IXI" shallow w0).
  exact short_shallow.
Defined.











(** * Properties of psnrstats.py *)

(** ** The order of the floating-point values *)

Lemma fp_le_trans a b c : fp_le a b -> fp_le b c -> fp_le a c.
Proof.
  destruct a, b, c; simpl; try tauto. apply Rle_trans.
Qed.

Lemma fp_le_refl a : a <> NaN -> fp_le a a.
Proof. destruct a; simpl; try tauto. intros _. apply Rle_refl. Qed.

Lemma fp_minimum_sel a b :
  a <> NaN -> b <> NaN -> fp_minimum a b = a \/ fp_minimum a b = b.
Proof.
  destruct a as [x| | |], b as [y| | |]; simpl; try tauto.
  intros _ _. unfold Rmin. destruct (Rle_dec x y); tauto.
Qed.

Lemma fp_minimum_le a b :
  a <> NaN -> b <> NaN ->
  fp_le (fp_minimum a b) a /\ fp_le (fp_minimum a b) b.
Proof.
  destruct a as [x| | |], b as [y| | |]; simpl; try tauto; try lra.
  intros _ _. split; [apply Rmin_l|apply Rmin_r].
Qed.

Lemma fp_maximum_sel a b :
  a <> NaN -> b <> NaN -> fp_maximum a b = a \/ fp_maximum a b = b.
Proof.
  destruct a as [x| | |], b as [y| | |]; simpl; try tauto.
  intros _ _. unfold Rmax. destruct (Rle_dec x y); tauto.
Qed.

Lemma fp_maximum_le a b :
  a <> NaN -> b <> NaN ->
  fp_le a (fp_maximum a b) /\ fp_le b (fp_maximum a b).
Proof.
  destruct a as [x| | |], b as [y| | |]; simpl; try tauto; try lra.
  intros _ _. split; [apply Rmax_l|apply Rmax_r].
Qed.

(** ** Reductions of a column

    A reduction folds an operation that selects one of its arguments,
    below (or above) both, and that NaN absorbs. *)
Section Reduction.
Variable op : fp -> fp -> fp.
Variable le : fp -> fp -> Prop.
Hypothesis op_nan_l : forall b, op NaN b = NaN.
Hypothesis op_nan_r : forall a, op a NaN = NaN.
Hypothesis op_sel :
  forall a b, a <> NaN -> b <> NaN -> op a b = a \/ op a b = b.
Hypothesis op_le :
  forall a b, a <> NaN -> b <> NaN -> le (op a b) a /\ le (op a b) b.
Hypothesis le_refl : forall a, a <> NaN -> le a a.
Hypothesis le_trans : forall a b c, le a b -> le b c -> le a c.

Lemma fold_nan l : fold_left op l NaN = NaN.
Proof. induction l as [|b l IH]; simpl; [reflexivity|]. now rewrite op_nan_l. Qed.

Lemma fold_holds_nan l a : In NaN (a :: l) -> fold_left op l a = NaN.
Proof.
  revert a. induction l as [|b l IH]; intros a [H|H].
  - now subst.
  - destruct H.
  - subst. apply fold_nan.
  - simpl. destruct H as [H|H].
    + subst. rewrite op_nan_r. apply fold_nan.
    + apply IH. now right.
Qed.

Lemma fold_selects l a :
  ~ In NaN (a :: l) ->
  In (fold_left op l a) (a :: l) /\
  Forall (le (fold_left op l a)) (a :: l).
Proof.
  revert a. induction l as [|b l IH]; intros a Hn.
  - simpl. split; [now left|]. constructor; [|constructor].
    apply le_refl. intros E. apply Hn. now left.
  - assert (Ha : a <> NaN) by (intros E; apply Hn; now left).
    assert (Hb : b <> NaN) by (intros E; apply Hn; right; now left).
    assert (Hc : op a b <> NaN).
    { destruct (op_sel Ha Hb) as [E|E]; now rewrite E. }
    destruct (IH (op a b)) as [Hin Hall].
    { intros [E|E]; [now apply Hc|]. apply Hn. right. now right. }
    cbn [fold_left]. set (m := fold_left op l (op a b)) in *.
    inversion Hall as [|c l' Hmc Hml]; subst c l'.
    destruct (op_le Ha Hb) as [Hca Hcb]. split.
    + destruct Hin as [E|Hin]; [|right; now right].
      rewrite <- E. destruct (op_sel Ha Hb) as [E'|E']; rewrite E';
        [now left|right; now left].
    + constructor; [now apply le_trans with (op a b)|].
      constructor; [now apply le_trans with (op a b)|exact Hml].
Qed.

End Reduction.

Section PsnrFacts.
Import Psnr.
Variable o : outside.

(** *** The parser *)

Lemma parse_lines_spec lines c :
  parse_lines o lines c
  = match rows_of o (groups_of o lines) with
    | inl e => inl e
    | inr rows =>
      inr (mkColumns (c_indices c ++ map row_index rows)
                     (c_noisy c ++ map row_noisy rows)
                     (c_denoised_clamped c ++ map row_clamped rows)
                     (c_denoised_psnr c ++ map row_psnr rows))
    end.
Proof.
  revert c. induction lines as [|line lines IH]; intros c.
  - simpl. rewrite !app_nil_r. now destruct c.
  - cbn [parse_lines]. unfold groups_of. cbn [flat_map].
    fold (groups_of o lines). unfold parse_line.
    destruct (re_match o line) as [[[[idx v1] v2] v3]|].
    + cbn [app rows_of]. unfold group_idx at 1. cbn [fst snd].
      destruct (int_of o idx) as [i|]; [|reflexivity].
      rewrite IH. destruct (rows_of o (groups_of o lines)) as [e|rows];
        [reflexivity|].
      cbn [c_indices c_noisy c_denoised_clamped c_denoised_psnr map].
      unfold row_index, row_noisy, row_clamped, row_psnr,
        group_val1, group_val2, group_val3.
      cbn [fst snd]. now rewrite <- !app_assoc.
    + cbn [app]. apply IH.
Qed.

Lemma groups_of_length lines :
  (length (groups_of o lines) <= length lines)%nat.
Proof.
  induction lines as [|line lines IH]; [simpl; lia|].
  unfold groups_of in *. cbn [flat_map]. rewrite length_app. simpl length.
  destruct (re_match o line); simpl; lia.
Qed.

Lemma rows_of_fails gs :
  Exists (fun g => int_of o (group_idx g) = None) gs ->
  rows_of o gs = inl ConversionError.
Proof.
  induction 1 as [g gs H|g gs H IH]; cbn [rows_of].
  - now rewrite H.
  - destruct (int_of o (group_idx g)); [|reflexivity]. now rewrite IH.
Qed.

Lemma rows_of_ok gs :
  Forall (convertible o) gs ->
  exists rows,
    rows_of o gs = inr rows /\
    map Some (map row_index rows)
    = map (fun g => int_of o (group_idx g)) gs /\
    map row_noisy rows = map (fun g => float_of o (group_val1 g)) gs /\
    map row_clamped rows = map (fun g => float_of o (group_val2 g)) gs /\
    map row_psnr rows = map (fun g => float_of o (group_val3 g)) gs.
Proof.
  induction 1 as [|g gs Hg Hgs (rows & E & Hi & H1 & H2 & H3)].
  - exists []. repeat split.
  - unfold convertible in Hg. cbn [rows_of]. rewrite E.
    destruct (int_of o (group_idx g)) as [i|] eqn:Ei; [|congruence].
    eexists. split; [reflexivity|]. cbn [map].
    unfold row_index at 1, row_noisy at 1, row_clamped at 1, row_psnr at 1.
    cbn [fst snd]. rewrite Ei, Hi, H1, H2, H3. repeat split.
Qed.

Lemma parse_ok file_path lines rows :
  read_lines o file_path = inr (lines, false) ->
  rows_of o (groups_of o lines) = inr rows ->
  parse_psnr_file o file_path = inr (values_of rows, map row_index rows).
Proof.
  intros H Hr. unfold parse_psnr_file. now rewrite H, parse_lines_spec, Hr.
Qed.

Lemma parse_fails file_path lines fails :
  read_lines o file_path = inr (lines, fails) ->
  Exists (fun g => int_of o (group_idx g) = None) (groups_of o lines) ->
  parse_psnr_file o file_path = inl ConversionError.
Proof.
  intros H He. unfold parse_psnr_file.
  now rewrite H, parse_lines_spec, (rows_of_fails He).
Qed.

(** Whatever the file, the parser fails or returns a dict of the three
    columns of some rows. *)
Lemma parse_cases file_path :
  (exists e, parse_psnr_file o file_path = inl e) \/
  (exists rows,
     parse_psnr_file o file_path = inr (values_of rows, map row_index rows)).
Proof.
  unfold parse_psnr_file.
  destruct (read_lines o file_path) as [e|[lines fails]];
    [left; now exists e|].
  rewrite parse_lines_spec.
  destruct (rows_of o (groups_of o lines)) as [e|rows];
    [left; now exists e|].
  destruct fails; [left; now exists FileError|].
  right. now exists rows.
Qed.

(** *** Statistics of one column *)

Lemma np_min_spec data :
  data <> [] ->
  exists mn, np_min data = inr mn /\
    (In NaN data -> mn = NaN) /\
    (~ In NaN data -> In mn data /\ Forall (fp_le mn) data).
Proof.
  destruct data as [|a l]; [congruence|]. intros _.
  exists (fold_left fp_minimum l a). split; [reflexivity|]. split.
  - apply fold_holds_nan; [reflexivity|intros x; now destruct x].
  - apply (@fold_selects fp_minimum fp_le).
    + apply fp_minimum_sel.
    + apply fp_minimum_le.
    + apply fp_le_refl.
    + apply fp_le_trans.
Qed.

Lemma np_max_spec data :
  data <> [] ->
  exists mx, np_max data = inr mx /\
    (In NaN data -> mx = NaN) /\
    (~ In NaN data -> In mx data /\ Forall (fun v => fp_le v mx) data).
Proof.
  destruct data as [|a l]; [congruence|]. intros _.
  exists (fold_left fp_maximum l a). split; [reflexivity|]. split.
  - apply fold_holds_nan; [reflexivity|intros x; now destruct x].
  - apply (@fold_selects fp_maximum (fun a b => fp_le b a)).
    + apply fp_maximum_sel.
    + apply fp_maximum_le.
    + apply fp_le_refl.
    + intros x y z H1 H2. now apply fp_le_trans with y.
Qed.

Lemma column_stats_ok data :
  data <> [] ->
  exists s, column_stats o data = inr s /\ consistent s data.
Proof.
  intros Hne.
  destruct (np_min_spec Hne) as (mn & Hmn & Hmin_nan & Hmin).
  destruct (np_max_spec Hne) as (mx & Hmx & Hmax_nan & Hmax).
  eexists. unfold column_stats. rewrite Hmn, Hmx.
  split; [reflexivity|]. unfold consistent. cbn [s_min s_max]. split.
  - intros H. split; [now apply Hmin_nan|now apply Hmax_nan].
  - intros H. destruct (Hmin H) as [H1 H2]. destruct (Hmax H) as [H3 H4].
    split; [exact H1|]. split; [exact H3|].
    rewrite Forall_forall in *. intros v Hv. split; auto.
Qed.

Lemma column_stats_empty : column_stats o [] = inl EmptyReduction.
Proof. reflexivity. Qed.

Lemma statistics_of_rows (rows : list row) :
  rows <> [] ->
  exists s1 s2 s3,
    calculate_statistics o (values_of rows)
    = inr [("noisy"%string, s1);
           ("denoised_clamped"%string, s2);
           ("denoised_psnr"%string, s3)] /\
    consistent s1 (map row_noisy rows) /\
    consistent s2 (map row_clamped rows) /\
    consistent s3 (map row_psnr rows).
Proof.
  intros Hne.
  assert (Hm : forall f : row -> fp, map f rows <> []).
  { intros f E. apply map_eq_nil in E. contradiction. }
  destruct (column_stats_ok (Hm row_noisy)) as (s1 & E1 & C1).
  destruct (column_stats_ok (Hm row_clamped)) as (s2 & E2 & C2).
  destruct (column_stats_ok (Hm row_psnr)) as (s3 & E3 & C3).
  exists s1, s2, s3. unfold values_of. cbn [calculate_statistics].
  rewrite E1, E2, E3. split; [reflexivity|].
  split; [exact C1|]. split; [exact C2|exact C3].
Qed.

End PsnrFacts.

Import Psnr.

(** X18. [parse_psnr_file] keeps its four lists aligned. When the file
    can be opened and the index of some matching line cannot be
    converted, it fails with the [ValueError] of [int]. When every
    index can be converted, it fails if the reading of the file does,
    and otherwise the three columns and the index list hold, in file
    order, the converted groups of exactly the lines that match the
    pattern; lines that do not match are skipped silently. So the four
    have the same length, at most the number of lines. *)
Theorem X18_parse_keeps_columns_aligned :
  forall (o : outside) (file_path : string) (lines : list string)
         (fails : bool),
    read_lines o file_path = inr (lines, fails) ->
    let matches := groups_of o lines in
    (Exists (fun g => int_of o (group_idx g) = None) matches ->
     parse_psnr_file o file_path = inl ConversionError) /\
    (Forall (convertible o) matches ->
     exists noisy clamped psnr indices,
       parse_psnr_file o file_path
       = (if fails then inl FileError
          else inr ([("noisy"%string, noisy);
                     ("denoised_clamped"%string, clamped);
                     ("denoised_psnr"%string, psnr)], indices)) /\
       map Some indices = map (fun g => int_of o (group_idx g)) matches /\
       noisy = map (fun g => float_of o (group_val1 g)) matches /\
       clamped = map (fun g => float_of o (group_val2 g)) matches /\
       psnr = map (fun g => float_of o (group_val3 g)) matches /\
       length noisy = length indices /\
       length clamped = length indices /\
       length psnr = length indices /\
       (length indices <= length lines)%nat).
Proof.
  intros o file_path lines fails H matches. split.
  - intros He. exact (parse_fails o _ H He).
  - intros Hc.
    destruct (rows_of_ok Hc) as (rows & Er & Hi & H1 & H2 & H3).
    exists (map row_noisy rows), (map row_clamped rows),
      (map row_psnr rows), (map row_index rows).
    assert (Hlen : length rows = length matches).
    { apply (f_equal (@length _)) in H1. now rewrite !length_map in H1. }
    split; [|repeat split; try assumption; rewrite ?length_map; auto].
    + unfold parse_psnr_file. rewrite H, parse_lines_spec. fold matches.
      rewrite Er. reflexivity.
    + rewrite Hlen. apply groups_of_length.
Qed.

Lemma X18_witness :
  parse_psnr_file long_outside "psnr.txt" = inl ConversionError /\
  exists noisy clamped psnr indices,
    parse_psnr_file sample_outside "psnr.txt"
    = inr ([("noisy"%string, noisy);
            ("denoised_clamped"%string, clamped);
            ("denoised_psnr"%string, psnr)], indices) /\
    map Some indices = [Some 1%nat; Some 3%nat] /\
    noisy = [Fin 1; Fin 1] /\
    (length indices <= 3)%nat.
Proof.
  split.
  - apply (@X18_parse_keeps_columns_aligned long_outside "psnr.txt"
             ["7"; "99"; "5"]%string false eq_refl).
    right. left. reflexivity.
  - destruct (@X18_parse_keeps_columns_aligned sample_outside "psnr.txt"
                ["a"; ""; "bcd"]%string false eq_refl) as [_ H].
    destruct H as (noisy & clamped & psnr & indices & Hp & Hi & Hn & _ & _
                   & _ & _ & _ & Hl).
    + repeat constructor; discriminate.
    + exists noisy, clamped, psnr, indices.
      split; [exact Hp|]. split; [exact Hi|]. split; [exact Hn|exact Hl].
Defined.

(** X19. [calculate_statistics] fails on a log without a matching line:
    every column is empty and [np.min] raises. On a log with at least
    one matching line it returns the statistics of the three columns,
    in order, and in each of them the minimum and the maximum are values
    of the column that bound all the others (an infinite value
    included), or NaN when the column holds NaN. *)
Theorem X19_statistics_of_a_log :
  forall (o : outside) (rows : list row),
    (rows = [] ->
     calculate_statistics o (values_of rows) = inl EmptyReduction) /\
    (rows <> [] ->
     exists s1 s2 s3,
       calculate_statistics o (values_of rows)
       = inr [("noisy"%string, s1);
              ("denoised_clamped"%string, s2);
              ("denoised_psnr"%string, s3)] /\
       consistent s1 (map row_noisy rows) /\
       consistent s2 (map row_clamped rows) /\
       consistent s3 (map row_psnr rows)).
Proof.
  intros o rows. split.
  - intros ->. reflexivity.
  - intros Hne.
    assert (Hm : forall f : row -> fp, map f rows <> []).
    { intros f E. apply map_eq_nil in E. contradiction. }
    destruct (column_stats_ok o (Hm row_noisy)) as (s1 & E1 & C1).
    destruct (column_stats_ok o (Hm row_clamped)) as (s2 & E2 & C2).
    destruct (column_stats_ok o (Hm row_psnr)) as (s3 & E3 & C3).
    exists s1, s2, s3. unfold values_of. cbn [calculate_statistics].
    rewrite E1, E2, E3. split; [reflexivity|].
    split; [exact C1|]. split; [exact C2|exact C3].
Qed.

Lemma X19_witness :
  calculate_statistics sample_outside (values_of []) = inl EmptyReduction /\
  exists s1 s2 s3,
    calculate_statistics sample_outside
      (values_of [(7%nat, Fin 1, PInf, Fin 3); (8%nat, Fin 2, Fin 5, NaN)])
    = inr [("noisy"%string, s1);
           ("denoised_clamped"%string, s2);
           ("denoised_psnr"%string, s3)] /\
    consistent s1 [Fin 1; Fin 2] /\
    consistent s2 [PInf; Fin 5] /\
    consistent s3 [Fin 3; NaN].
Proof.
  split.
  - apply (X19_statistics_of_a_log sample_outside []). reflexivity.
  - apply (X19_statistics_of_a_log sample_outside
             [(7%nat, Fin 1, PInf, Fin 3); (8%nat, Fin 2, Fin 5, NaN)]).
    discriminate.
Defined.

(** *** [plot_histograms] and [main] *)

Ltac step_ext :=
  match goal with
  | |- context [raises ?o ?l ?c] => destruct (raises o l c)
  end.

Ltac close_log :=
  rewrite <- ?app_assoc; cbn [app];
  eexists _, _; split; [reflexivity|];
  repeat constructor.

(** On the dict that [parse_psnr_file] builds, [plot_histograms] never
    returns: it stops in the plotting library or at the lookup of
    ['denoised_1'], having drawn the first histogram at most. *)
Lemma plot_histograms_raises o rows log :
  exists e calls,
    plot_histograms o (values_of rows) log = (inl e, log ++ calls) /\
    Forall first_histogram calls.
Proof.
  unfold plot_histograms, values_of, pbind, plift, ext.
  cbn [seq combine pfor fst snd dict_get String.eqb Ascii.eqb Bool.eqb].
  unfold pbind, plift, ext.
  step_ext; [close_log|].
  step_ext; [close_log|].
  step_ext; [close_log|].
  step_ext; [close_log|].
  step_ext; [close_log|].
  step_ext; [close_log|].
  close_log.
Qed.

(** X20. [main] never returns 0. Whatever the arguments, the file and
    the behaviour of the plotting library, it returns 1: the file cannot
    be read, or an index cannot be converted, or no line matches and
    [np.min] raises, or
    [plot_histograms] looks up ['denoised_1'], a key that
    [parse_psnr_file] never creates. No figure is ever saved and
    [plot_comparison] is never started: the plotting calls made are at
    most those of the first histogram. *)
Theorem X20_main_always_returns_1 :
  forall (o : outside) (argv : list string) (log : list call),
    exists calls,
      main o argv log = (1%nat, log ++ calls) /\
      Forall first_histogram calls /\
      (forall file, ~ In (Savefig file) calls).
Proof.
  intros o argv log.
  assert (Hns : forall calls, Forall first_histogram calls ->
                  forall file, ~ In (Savefig file) calls).
  { intros calls H file Hin. rewrite Forall_forall in H.
    exact (H _ Hin). }
  unfold main. set (file_path := if (1 <? length argv)%nat then _ else _).
  unfold main_body, pbind at 1, plift at 1.
  destruct (parse_cases o file_path) as [(e & Hp)|(rows & Hp)]; rewrite Hp.
  - exists []. rewrite app_nil_r. split; [reflexivity|].
    split; [constructor|intros file []].
  - cbn [fst snd]. unfold pbind at 1, plift at 1.
    destruct (calculate_statistics o (values_of rows)) as [e|stats].
    + exists []. rewrite app_nil_r. split; [reflexivity|].
      split; [constructor|intros file []].
    + unfold pbind at 1, print_statistics, pret. unfold pbind at 1.
      destruct (plot_histograms_raises o rows log)
        as (e & calls & Hh & Hc).
      rewrite Hh. exists calls. split; [reflexivity|].
      split; [exact Hc|now apply Hns].
Qed.

(** X21. On a log that can be read, with a plotting library that never
    raises: when the index of some matching line cannot be converted
    the run fails in [parse_psnr_file] with the [ValueError] of [int],
    before any plotting call; when every index can be converted and at
    least one line matches, the run draws the first histogram (of the
    column ['noisy']) and then fails with [KeyError: 'denoised_1']; and
    when no line matches it fails in [calculate_statistics] before any
    plotting call. *)
Theorem X21_main_stops_at_denoised_1 :
  forall (o : outside) (file_path : string) (lines : list string)
         (log : list call),
    read_lines o file_path = inr (lines, false) ->
    (forall l c, raises o l c = false) ->
    let matches := groups_of o lines in
    let noisy := map (fun g => float_of o (group_val1 g)) matches in
    (Exists (fun g => int_of o (group_idx g) = None) matches ->
     main_body o file_path log = (inl ConversionError, log)) /\
    (Forall (convertible o) matches -> matches <> [] ->
     main_body o file_path log
     = (inl (KeyError "denoised_1"),
        log ++ [Subplots; Hist 0 noisy; Axvline 0 (np_mean o noisy);
                SetTitle 0 "Noisy" (np_mean o noisy);
                SetXlabel 0; SetYlabel 0])) /\
    (matches = [] ->
     main_body o file_path log = (inl EmptyReduction, log)).
Proof.
  intros o file_path lines log Hread Hq matches noisy.
  unfold main_body. split; [|split].
  - intros He. unfold pbind at 1, plift at 1.
    now rewrite (parse_fails o _ Hread He).
  - intros Hc Hne.
    destruct (rows_of_ok Hc) as (rows & Er & _ & H1 & _).
    assert (Hrows : rows <> []).
    { intros ->. apply Hne. fold matches in H1.
      destruct matches; [reflexivity|discriminate]. }
    destruct (statistics_of_rows o Hrows) as (s1 & s2 & s3 & Hs & _).
    unfold pbind at 1, plift at 1.
    rewrite (parse_ok o _ Hread Er). cbn [fst snd].
    unfold pbind at 1, plift at 1. rewrite Hs.
    unfold pbind at 1, print_statistics, pret. unfold pbind at 1.
    unfold plot_histograms, values_of, pbind, plift, ext.
    cbn [seq combine pfor fst snd dict_get String.eqb Ascii.eqb Bool.eqb].
    unfold pbind, plift, ext. rewrite !Hq, H1.
    rewrite <- !app_assoc. reflexivity.
  - intros He.
    assert (Er : rows_of o (groups_of o lines) = inr []).
    { fold matches. now rewrite He. }
    unfold pbind at 1, plift at 1.
    now rewrite (parse_ok o _ Hread Er).
Qed.

Lemma X21_witness :
  main_body long_outside "psnr.txt" [] = (inl ConversionError, []) /\
  main_body sample_outside "psnr.txt" []
  = (inl (KeyError "denoised_1"),
     [] ++ [Subplots; Hist 0 [Fin 1; Fin 1]; Axvline 0 (Fin 0);
            SetTitle 0 "Noisy" (Fin 0); SetXlabel 0; SetYlabel 0]) /\
  main_body blank_outside "psnr.txt" [] = (inl EmptyReduction, []).
Proof.
  split; [|split].
  - apply (@X21_main_stops_at_denoised_1 long_outside "psnr.txt"
             ["7"; "99"; "5"]%string []); [reflexivity|reflexivity|].
    right. left. reflexivity.
  - apply (@X21_main_stops_at_denoised_1 sample_outside "psnr.txt"
             ["a"; ""; "bcd"]%string []);
      [reflexivity|reflexivity| |discriminate].
    repeat constructor; discriminate.
  - apply (@X21_main_stops_at_denoised_1 blank_outside "psnr.txt"
             ["x"; "y"]%string []); reflexivity.
Defined.
